(** * gobrew: the version directory state machine

    A shallow embedding of [gobrew.go] (package [gobrew]) together with the
    parts of the Go standard library and of the operating system it calls
    into: [path/filepath] ([Join], [Clean], [EvalSymlinks]), [strings]
    ([ReplaceAll]), [os] ([Stat], [MkdirAll], [RemoveAll]) and the [ln]
    command.  The file system is a finite map from absolute locations to
    nodes; [log.Fatal] ends the process and is modelled as an early exit. *)

From Stdlib Require Import Ascii String.
From stdpp Require Import base option list strings gmap fin_maps sorting.

(** ** Strings and lexical paths *)

Module GoPath.

(** [os.PathSeparator] on the Unix targets gobrew is built for. *)
Definition sep : ascii := "/"%char.

(** [strings.Split(s, "/")]. *)
Fixpoint Split (s : string) : list string :=
  match s with
  | EmptyString => [""]
  | String c s' =>
      if Ascii.eqb c sep then "" :: Split s'
      else match Split s' with
           | x :: xs => String c x :: xs
           | [] => [String c ""]
           end
  end.

(** [strings.Join(l, "/")]. *)
Definition Joins (l : list string) : string := String.concat "/" l.

(** [filepath.IsAbs]. *)
Definition IsAbs (s : string) : bool :=
  match s with
  | String c _ => Ascii.eqb c sep
  | EmptyString => false
  end.

(** One element of the path seen by [filepath.Clean]; [st] is the stack of
    elements kept so far, innermost first.  Empty elements and [.] are
    dropped, [..] removes the element before it, stays if there is none to
    remove in a relative path, and is dropped at the root. *)
Definition clean_step (rooted : bool) (st : list string) (c : string)
  : list string :=
  if String.eqb c "" then st
  else if String.eqb c "." then st
  else if String.eqb c ".." then
    match st with
    | t :: st' => if String.eqb t ".." then c :: st else st'
    | [] => if rooted then [] else [c]
    end
  else c :: st.

Definition clean_stack (rooted : bool) (cs : list string) : list string :=
  rev (fold_left (clean_step rooted) cs []).

Definition render (rooted : bool) (st : list string) : string :=
  if rooted then "/" +:+ Joins st
  else match st with
       | [] => "."
       | _ => Joins st
       end.

(** [filepath.Clean]. *)
Definition Clean (s : string) : string :=
  render (IsAbs s) (clean_stack (IsAbs s) (Split s)).

(** [filepath.Join]: the elements from the first non-empty one on are
    joined with the separator and cleaned; all empty gives the empty
    string. *)
Fixpoint Join (elem : list string) : string :=
  match elem with
  | [] => ""
  | e :: rest => if String.eqb e "" then Join rest else Clean (Joins elem)
  end.

(** [strings.ReplaceAll(s, old, new)] for a non-empty [old]: scan from the
    left, and at each match emit [new] and skip the matched bytes. *)
Fixpoint replace_from (old new : string) (skip : nat) (s : string) : string :=
  match s with
  | EmptyString => ""
  | String c s' =>
      match skip with
      | S k => replace_from old new k s'
      | O =>
          if String.prefix old s
          then new +:+ replace_from old new (String.length old - 1) s'
          else String c (replace_from old new 0 s')
      end
  end.

(** With an empty [old] Go inserts [new] before every rune and at the end;
    the model does so before every byte. *)
Fixpoint intersperse (new s : string) : string :=
  match s with
  | EmptyString => new
  | String c s' => new +:+ String c (intersperse new s')
  end.

Definition ReplaceAll (s old new : string) : string :=
  match old with
  | EmptyString => intersperse new s
  | _ => replace_from old new 0 s
  end.

(** [endsWithDot] of [os/removeall_at.go]. *)
Definition endsWithDot (path : string) : bool :=
  if String.eqb path "." then true
  else match rev (Split path) with
       | c :: _ :: _ => String.eqb c "."
       | _ => false
       end.

(** No separator inside: the string can be one element of a path. *)
Fixpoint nosep (s : string) : bool :=
  match s with
  | EmptyString => true
  | String c s' => negb (Ascii.eqb c sep) && nosep s'
  end.

(** An ordinary element: not empty, not a dot segment, no separator. *)
Definition plain (c : string) : bool :=
  nosep c && negb (String.eqb c "") && negb (String.eqb c ".")
  && negb (String.eqb c "..").

(** The shape of the stack [clean_step] builds, innermost element first:
    ordinary elements, and below them, in a relative path only, the [..]
    elements that could not be resolved. *)
Fixpoint clean_shape (rooted : bool) (st : list string) : Prop :=
  match st with
  | [] => True
  | c :: st' =>
      (plain c ∧ clean_shape rooted st')
      ∨ (rooted = false ∧ Forall (eq "..") st)
  end.

(** The absolute path that names a location, and the location a path
    names lexically. *)
Definition path_of (l : list string) : string := render true l.
Definition loc_of (path : string) : list string :=
  clean_stack true (Split path).

(** A location extended lexically by further path elements. *)
Definition extend (l more : list string) : list string :=
  rev (fold_left (clean_step true) more (rev l)).

(** The path of a location, one separator and element at a time. *)
Fixpoint segs (l : list string) : string :=
  match l with
  | [] => ""
  | c :: l' => String sep (c +:+ segs l')
  end.

(** [strings.Contains(s, sub)]. *)
Fixpoint Contains (s sub : string) : bool :=
  String.prefix sub s ||
  match s with
  | EmptyString => false
  | String _ s' => Contains s' sub
  end.

(** The line feed, which [.] of a Go regular expression does not match. *)
Definition newline : ascii := "010"%char.

(** The rest of the line a string starts with. *)
Fixpoint line_rest (s : string) : string :=
  match s with
  | EmptyString => ""
  | String c s' => if Ascii.eqb c newline then "" else String c (line_rest s')
  end.

(** [regexp.Compile(lit + ".*")] followed by [FindAllString(s, -1)], for a
    literal [lit] that is not empty and holds no line feed: scanning from
    the left, a match starts where [lit] occurs and takes the rest of the
    line; the scan goes on behind the match. *)
Fixpoint find_from (lit : string) (skip : nat) (s : string) : list string :=
  match s with
  | EmptyString => []
  | String c s' =>
      match skip with
      | S k => find_from lit k s'
      | O =>
          if String.prefix lit s
          then line_rest s :: find_from lit (String.length (line_rest s) - 1) s'
          else find_from lit 0 s'
      end
  end.

Definition FindAllString_lit_rest (lit s : string) : list string :=
  find_from lit 0 s.

(** A character that does not occur in a string. *)
Fixpoint lacks (a : ascii) (s : string) : bool :=
  match s with
  | EmptyString => true
  | String c s' => negb (Ascii.eqb c a) && lacks a s'
  end.

End GoPath.

Import GoPath.

(** ** The file system *)

Module FS.

(** A node of the tree.  File contents play no role in gobrew's decisions
    and are left out. *)
Inductive node :=
  | Dir
  | File
  | Link (target : string).

#[global] Instance node_eq_dec : EqDecision node.
Proof. solve_decision. Defined.

(** A location names a node by the directory entries leading to it from the
    root; the root itself is [[]] and always a directory. *)
Abbreviation loc := (list string).
Abbreviation files := (gmap (list string) node).

Definition node_at (fs : files) (l : loc) : option node :=
  match l with
  | [] => Some Dir
  | _ => fs !! l
  end.

Definition is_dir (fs : files) (l : loc) : bool :=
  match node_at fs l with
  | Some Dir => true
  | _ => false
  end.

(** The path printed so far by [filepath.EvalSymlinks] for a relative
    argument ([dest] in [walkSymlinks]), innermost element first; [None]
    once the result is absolute. *)
Abbreviation relpath := (option (list string)).

Definition rel_push (c : string) (r : relpath) : relpath :=
  cons c <$> r.

Definition rel_up (r : relpath) : relpath :=
  match r with
  | Some (t :: st) => if String.eqb t ".." then Some (".." :: t :: st) else Some st
  | Some [] => Some [".."]
  | None => None
  end.

Section resolution.
Context (fs : files) (cwd : loc).

(** Where a link's target starts: at the root when absolute, else in the
    directory holding the link. *)
Definition link_start (t : string) (cur : loc) (r : relpath)
  : loc * relpath :=
  if IsAbs t then ([], None) else (cur, r).

(** Path resolution, one element at a time.  [cur] is the directory
    reached so far, free of links; an element is looked up only in a
    directory.  The last element is followed when it is a link only if
    [follow] is set.  [expand] continues at a link. *)
Fixpoint walk_with (follow : bool)
    (expand : loc -> relpath -> string -> list string -> option (loc * relpath))
    (cur : loc) (r : relpath) (todo : list string)
  : option (loc * relpath) :=
  match todo with
  | [] => Some (cur, r)
  | c :: rest =>
      if negb (is_dir fs cur) then None
      else if String.eqb c "" then walk_with follow expand cur r rest
      else if String.eqb c "." then walk_with follow expand cur r rest
      else if String.eqb c ".." then
        walk_with follow expand (removelast cur) (rel_up r) rest
      else
        match fs !! (cur ++ [c]) with
        | None => None
        | Some (Link t) =>
            match rest with
            | [] => if follow then expand cur r t rest
                    else Some (cur ++ [c], rel_push c r)
            | _ => expand cur r t rest
            end
        | Some _ => walk_with follow expand (cur ++ [c]) (rel_push c r) rest
        end
  end.

(** [n] bounds the number of links followed (ELOOP). *)
Fixpoint walk (follow : bool) (n : nat) (cur : loc) (r : relpath)
    (todo : list string) {struct n} : option (loc * relpath) :=
  walk_with follow
    (fun cur r t rest =>
       match n with
       | O => None
       | S n' =>
           let '(cur', r') := link_start t cur r in
           walk follow n' cur' r' (Split t ++ rest)
       end)
    cur r todo.

(** What [walk] does at a link with target [t] met in directory [cur]. *)
Definition follow_link (follow : bool) (n : nat) (cur : loc) (r : relpath)
    (t : string) (rest : list string) : option (loc * relpath) :=
  match n with
  | O => None
  | S n' =>
      let '(cur', r') := link_start t cur r in
      walk follow n' cur' r' (Split t ++ rest)
  end.

Definition start (path : string) : loc * relpath :=
  if IsAbs path then ([], None) else (cwd, Some []).

Definition resolve (follow : bool) (n : nat) (path : string)
  : option (loc * relpath) :=
  let '(cur, r) := start path in walk follow n cur r (Split path).

End resolution.

#[global] Arguments walk : simpl never.
#[global] Arguments follow_link : simpl never.

(** The system calls and commands gobrew issues.  Permissions are not
    modelled: a call fails only for the shape of the tree (a missing or
    non-directory element, a link loop, an entry already there). *)
Section syscalls.
Context (cwd : loc) (maxlinks : nat).

Definition lookup_path (follow : bool) (fs : files) (path : string)
  : option loc :=
  if String.eqb path "" then None
  else fst <$> resolve fs cwd follow maxlinks path.

(** [os.Lstat] and [os.Stat], reduced to where the path leads. *)
Definition Lstat : files -> string -> option loc := lookup_path false.
Definition Stat : files -> string -> option loc := lookup_path true.

(** [filepath.EvalSymlinks]: [walkSymlinks] follows at most 255 links
    and prints the result absolute, or relative to the working directory
    when the argument was relative and no absolute link was met. *)
Definition EvalSymlinks (fs : files) (path : string) : option string :=
  match resolve fs cwd true 255 path with
  | Some (l, None) => Some (render true l)
  | Some (_, Some st) => Some (render false (rev st))
  | None => None
  end.

(** Trailing separators of a path, given its elements last first. *)
Fixpoint strip_empty (rcs : list string) : list string :=
  match rcs with
  | c :: r => if String.eqb c "" then strip_empty r else rcs
  | [] => []
  end.

(** The directory and the name under which a path would be created. *)
Definition entry_of (fs : files) (path : string) : option (loc * string) :=
  match strip_empty (rev (Split path)) with
  | [] => None
  | c :: rinit =>
      if String.eqb c "." then None
      else if String.eqb c ".." then None
      else
        let '(cur, r) := start cwd path in
        match walk fs true maxlinks cur r (rev rinit) with
        | Some (d, _) => if is_dir fs d then Some (d, c) else None
        | None => None
        end
  end.

Definition create (n : node) (fs : files) (path : string) : option files :=
  match entry_of fs path with
  | Some (d, c) =>
      match fs !! (d ++ [c]) with
      | None => Some (<[d ++ [c] := n]> fs)
      | Some _ => None
      end
  | None => None
  end.

(** [os.Mkdir] and the [symlink] call. *)
Definition Mkdir : files -> string -> option files := create Dir.
Definition Symlink (fs : files) (target path : string) : option files :=
  if String.eqb target "" then None else create (Link target) fs path.

(** The path before the last element, as [os.MkdirAll] cuts it. *)
Definition parent_path (path : string) : string :=
  Joins (rev (tail (strip_empty (rev (Split path))))).

(** [os.MkdirAll]: nothing to do for a directory, an error for another
    node; else the parent first, then [Mkdir], whose failure is
    forgiven when the directory is there after all. *)
Fixpoint mkdir_all (n : nat) (fs : files) (path : string) : files * bool :=
  match Stat fs path with
  | Some l => (fs, is_dir fs l)
  | None =>
      match n with
      | O => (fs, false)
      | S n' =>
          let '(fs1, ok) :=
            if String.eqb (parent_path path) "" then (fs, true)
            else mkdir_all n' fs (parent_path path) in
          if ok then
            match Mkdir fs1 path with
            | Some fs2 => (fs2, true)
            | None =>
                (fs1, match Lstat fs1 path with
                      | Some l => is_dir fs1 l
                      | None => false
                      end)
            end
          else (fs1, false)
      end
  end.

Definition MkdirAll (fs : files) (path : string) : files * bool :=
  mkdir_all (String.length path) fs path.

(** Everything at or below a location goes. *)
Definition remove_tree (l : loc) (fs : files) : files :=
  filter (fun kv => ¬ l `prefix_of` kv.1) fs.

(** [os.RemoveAll]: the empty path and a missing path are left alone
    without error, a path ending in a dot is refused; the last element
    is not followed. *)
Definition RemoveAll (fs : files) (path : string) : files * bool :=
  if String.eqb path "" then (fs, true)
  else if endsWithDot path then (fs, false)
  else match Lstat fs path with
       | Some l => (remove_tree l fs, true)
       | None => (fs, true)
       end.

Definition basename (path : string) : option string :=
  head (strip_empty (rev (Split path))).

(** [ln -snf TARGET LINK]: a link or file at [LINK] is replaced; when
    [LINK] is a directory the link is made inside it under the name of
    the target; else the link is created. *)
Definition ln_snf (fs : files) (target link : string) : option files :=
  if String.eqb target "" then None
  else
    match Lstat fs link with
    | Some l =>
        if is_dir fs l then
          match basename target with
          | Some b =>
              match fs !! (l ++ [b]) with
              | Some Dir => None
              | _ => Some (<[l ++ [b] := Link target]> fs)
              end
          | None => None
          end
        else Some (<[l := Link target]> fs)
    | None => Symlink fs target link
    end.

(** [os.Readlink]. *)
Definition Readlink (fs : files) (path : string) : option string :=
  match Lstat fs path with
  | Some l =>
      match node_at fs l with
      | Some (Link t) => Some t
      | _ => None
      end
  | None => None
  end.

(** The name under which a location is an entry of a directory. *)
Definition child_name (l k : loc) : option string :=
  if decide (take (length l) k = l) then
    match drop (length l) k with
    | [c] => Some c
    | _ => None
    end
  else None.

Definition dir_names (fs : files) (l : loc) : list string :=
  omap (fun kv => child_name l kv.1) (map_to_list fs).

(** [ioutil.ReadDir]: the names of the entries of a directory, sorted;
    the result is the text of the error when the path does not lead to a
    directory (the wording of the second error varies with the
    platform). *)
Definition ReadDir (fs : files) (path : string) : list string + string :=
  match Stat fs path with
  | Some l =>
      if is_dir fs l then inl (merge_sort String.le (dir_names fs l))
      else inr ("readdirent " +:+ path +:+ ": not a directory")
  | None => inr ("open " +:+ path +:+ ": no such file or directory")
  end.

End syscalls.

(** A location reached through directories only, itself a directory. *)
Definition dirs (fs : files) (l : loc) : Prop :=
  ∀ p, p `prefix_of` l → is_dir fs p = true.

(** No symbolic link at a location or on the way to it. *)
Definition no_link (fs : files) (l : loc) : Prop :=
  ∀ p t, p `prefix_of` l → fs !! p ≠ Some (Link t).

(** The prefixes of a location, the root first. *)
Definition prefixes (l : loc) : list loc :=
  (fun k => take k l) <$> seq 0 (S (length l)).

Definition dirsb (fs : files) (l : loc) : bool :=
  forallb (is_dir fs) (prefixes l).

Definition is_link (fs : files) (l : loc) : bool :=
  match fs !! l with
  | Some (Link _) => true
  | _ => false
  end.

Definition no_linkb (fs : files) (l : loc) : bool :=
  forallb (fun p => negb (is_link fs p)) (prefixes l).

(** A place that is free, or taken by a directory. *)
Definition vacant_or_dir (fs : files) (l : loc) : Prop :=
  fs !! l = None ∨ fs !! l = Some Dir.

(** A tree that has gained directories and is otherwise as it was. *)
Definition grows (fs fs' : files) : Prop :=
  fs ⊆ fs' ∧ ∀ l n, fs' !! l = Some n → fs !! l = None → n = Dir.

(** Two trees that differ at most at or below a location. *)
Definition same_outside (l : loc) (fs fs' : files) : Prop :=
  ∀ k, ¬ l `prefix_of` k → fs' !! k = fs !! k.

End FS.

Import FS.

(** ** The process: state, output and exit *)

(** What the process does besides changing the tree: log lines, the
    calls that change the tree, the download and the commands it runs. *)
Inductive event :=
  | Log (line : string)
  | SysMkdirAll (path : string)
  | SysRemoveAll (path : string)
  | Fetch (url path : string)
  | Exec (name : string) (args : list string).

#[global] Instance event_eq_dec : EqDecision event.
Proof. solve_decision. Defined.

Record World := mkWorld {
  disk : files;
  trace : list event;
}.

(** The host: the environment of the process and the two collaborators
    whose code is outside [gobrew.go].  [Download] stands for
    [utils.Download(url, filepath)] and [tar_xf] for the command
    [tar -xf archive -C dir]; each returns the tree it leaves behind and
    its error, if any. *)
Record Env := mkEnv {
  HOME : string;
  GOOS : string;
  GOARCH : string;
  workdir : loc;
  MAXSYMLINKS : nat;
  Download : string -> string -> files -> files * option string;
  tar_xf : string -> string -> files -> files * option string;
}.

(** A procedure runs on the world and either returns a value or ends the
    process ([os.Exit(1)], which is what [log.Fatal] and [log.Fatalf] do
    after printing). *)
Definition Proc (A : Type) : Type := World -> World * option A.

#[global] Instance Proc_ret : MRet Proc := fun A a w => (w, Some a).
#[global] Instance Proc_bind : MBind Proc := fun A B k m w =>
  match m w with
  | (w', Some a) => k a w'
  | (w', None) => (w', None)
  end.

Definition emit (e : event) : Proc () :=
  fun w => (mkWorld (disk w) (trace w ++ [e]), Some ()).

Definition exit1 {A} : Proc A := fun w => (w, None).

Definition Printf (line : string) : Proc () := emit (Log line).

Definition Fatalf {A} (line : string) : Proc A := emit (Log line);; exit1.

Definition observe {A} (f : files -> A) : Proc A :=
  fun w => (w, Some (f (disk w))).

Definition mutate {A} (f : files -> files * A) : Proc A :=
  fun w => (mkWorld (f (disk w)).1 (trace w), Some (f (disk w)).2).

(** [for _, x := range l { f(x) }]. *)
Fixpoint for_each {A} (l : list A) (f : A -> Proc ()) : Proc () :=
  match l with
  | [] => mret ()
  | x :: l' => f x;; for_each l' f
  end.

(** ** gobrew.go *)

Module Gobrew.

Definition goBrewDir : string := ".gobrew".
Definition registryPath : string := "https://golang.org/dl/".
Definition fetchTagsRepo : string := "https://github.com/golang/go".

Record GoBrew := mkGoBrew {
  homeDir : string;
  installDir : string;
  versionsDir : string;
  currentDir : string;
  currentBinDir : string;
  currentGoDir : string;
  downloadsDir : string;
}.

Section methods.
Context (env : Env).

Definition NewGoBrew : GoBrew :=
  let homeDir := HOME env in
  let installDir := Join [homeDir; goBrewDir] in
  {| homeDir := homeDir;
     installDir := installDir;
     versionsDir := Join [installDir; "versions"];
     currentDir := Join [installDir; "current"];
     currentBinDir := Join [installDir; "current"; "bin"];
     currentGoDir := Join [installDir; "current"; "go"];
     downloadsDir := Join [installDir; "downloads"] |}.

Context (gb : GoBrew).

Definition os_Stat := Stat (workdir env) (MAXSYMLINKS env).
Definition os_MkdirAll (path : string) : Proc bool :=
  emit (SysMkdirAll path);;
  mutate (fun d => MkdirAll (workdir env) (MAXSYMLINKS env) d path).
Definition os_RemoveAll (path : string) : Proc bool :=
  emit (SysRemoveAll path);;
  mutate (fun d => RemoveAll (workdir env) (MAXSYMLINKS env) d path).

(** [exec.Command("ln", "-snf", target, link).Output()]; [true] stands
    for a nil error. *)
Definition exec_ln (target link : string) : Proc bool :=
  emit (Exec "ln" ["-snf"; target; link]);;
  mutate (fun d =>
    match ln_snf (workdir env) (MAXSYMLINKS env) d target link with
    | Some d' => (d', true)
    | None => (d, false)
    end).

Definition utils_Download (url path : string) : Proc (option string) :=
  emit (Fetch url path);;
  mutate (Download env url path).

Definition exec_tar (archive dir : string) : Proc (option string) :=
  emit (Exec "tar" ["-xf"; archive; "-C"; dir]);;
  mutate (tar_xf env archive dir).

Definition getArch : string := GOOS env +:+ "-" +:+ GOARCH env.

Definition existsVersion (d : files) (version : string) : bool :=
  let path := Join [versionsDir gb; version; "go"] in
  match os_Stat d path with
  | Some _ => true
  | None => false
  end.

Definition CurrentVersion (d : files) : string :=
  match EvalSymlinks (workdir env) d (currentBinDir gb) with
  | None => ""
  | Some fp =>
      let version := ReplaceAll fp "/go/bin" "" in
      let version := ReplaceAll version (versionsDir gb) "" in
      let version := ReplaceAll version "/" "" in
      version
  end.

Definition getVersionDir (version : string) : string :=
  Join [versionsDir gb; version].

Definition cleanVersionDir (version : string) : Proc () :=
  os_RemoveAll (getVersionDir version);; mret ().

Definition cleanDownloadsDir : Proc () :=
  os_RemoveAll (downloadsDir gb);; mret ().

Definition mkdirs (version : string) : Proc () :=
  os_MkdirAll (installDir gb);;
  os_MkdirAll (currentDir gb);;
  os_MkdirAll (versionsDir gb);;
  os_MkdirAll (getVersionDir version);;
  os_MkdirAll (downloadsDir gb);;
  mret ().

Definition downloadAndExtract (version : string) : Proc () :=
  let tarName := "go" +:+ version +:+ "." +:+ getArch +:+ ".tar.gz" in
  let downloadURL := registryPath +:+ tarName in
  err ← utils_Download downloadURL (Join [downloadsDir gb; tarName]);
  match err with
  | Some e =>
      cleanVersionDir version;;
      Printf ("[Info]: Downloading version failed: " +:+ e);;
      Fatalf ("[Error]: Please check connectivity to url: " +:+ downloadURL)
  | None => mret ()
  end;;
  Printf ("[Success] Untar to " +:+ getVersionDir version);;
  err ← exec_tar (Join [downloadsDir gb; tarName]) (getVersionDir version);
  match err with
  | Some e =>
      cleanVersionDir version;;
      Printf ("[Info]: Untar failed: " +:+ e);;
      Fatalf ("[Error]: Please check if version exists from url: " +:+ downloadURL)
  | None => mret ()
  end.

Definition changeSymblinkGoBin (version : string) : Proc () :=
  let goBinDst := Join [versionsDir gb; version; "/go/bin"] in
  os_RemoveAll (currentBinDir gb);;
  ok ← exec_ln goBinDst (currentBinDir gb);
  if ok : bool then mret ()
  else Fatalf "[Error]: symbolic link failed: exit status 1".

Definition changeSymblinkGo (version : string) : Proc () :=
  os_RemoveAll (currentGoDir gb);;
  cv ← observe CurrentVersion;
  let versionGoDir := Join [versionsDir gb; cv; "go"] in
  ok ← exec_ln versionGoDir (currentGoDir gb);
  if ok : bool then mret ()
  else Fatalf "[Error]: symbolic link failed: exit status 1".

Definition Uninstall (version : string) : Proc () :=
  (if String.eqb version "" then Fatalf "[Error] No version provided"
   else mret ());;
  cv ← observe CurrentVersion;
  if String.eqb cv version then
    Fatalf ("[Error] Version: " +:+ version +:+ " you are trying to remove is your current version. Please use a different version first before uninstalling the current version")
  else
    ex ← observe (fun d => existsVersion d version);
    (if ex : bool then mret ()
     else Fatalf ("[Error] Version: " +:+ version +:+ " you are trying to remove is not installed"));;
    cleanVersionDir version;;
    Printf ("[Success] Version: " +:+ version +:+ " uninstalled").

Definition Install (version : string) : Proc () :=
  (if String.eqb version "" then Fatalf "[Error] No version provided"
   else mret ());;
  mkdirs version;;
  ex ← observe (fun d => existsVersion d version);
  if ex : bool then
    Printf ("[Info] Version: " +:+ version +:+ " exists")
  else
    Printf ("[Info] Downloading version: " +:+ version);;
    downloadAndExtract version;;
    cleanDownloadsDir;;
    Printf ("[Success] Downloaded version: " +:+ version).

Definition Use (version : string) : Proc () :=
  cv ← observe CurrentVersion;
  if String.eqb cv version then
    Printf ("[Info] Version: " +:+ version +:+ " is already your current version")
  else
    Printf ("[Info] Changing go version to: " +:+ version);;
    changeSymblinkGoBin version;;
    changeSymblinkGo version;;
    Printf ("[Success] Changed go version to: " +:+ version).

(** [ListVersions]: the entries of the versions directory, one line
    each, the current one starred, and the current version once more at
    the end. *)
Definition ListVersions : Proc () :=
  files ← observe (fun d =>
    ReadDir (workdir env) (MAXSYMLINKS env) d (versionsDir gb));
  match files with
  | inr err => Fatalf ("[Error]: List versions failed: " +:+ err)
  | inl names =>
      cv ← observe CurrentVersion;
      for_each names (fun name =>
        let version := if String.eqb name cv then cv +:+ "*" else name in
        Printf version);;
      if negb (String.eqb cv "") then
        Printf "";;
        Printf ("current: " +:+ cv)
      else mret ()
  end.

(** [ListRemoteVersions].  [git] stands for what
    [exec.Command("git", ...).CombinedOutput()] gives back, the output and
    the error if any, and [BytesToString] for [utils.BytesToString], whose
    code is outside [gobrew.go]. *)
Definition ListRemoteVersions (git : string * option string)
    (BytesToString : string -> string) : Proc () :=
  emit (Exec "git" ["ls-remote"; "--sort=version:refname"; "--tags";
                    fetchTagsRepo; "go*"]);;
  match git.2 with
  | Some err => Fatalf ("[Error]: List remote versions failed: " +:+ err)
  | None => mret ()
  end;;
  let tagsRaw := BytesToString git.1 in
  let matches := FindAllString_lit_rest "tags/go" tagsRaw in
  for_each matches (fun m =>
    let versionTag := ReplaceAll m "tags/go" "" in
    Printf versionTag).

End methods.

(** The locations the paths of [NewGoBrew] name when [HOME] is
    absolute. *)
Definition homeLoc (env : Env) : loc := loc_of (HOME env).
Definition installLoc (env : Env) : loc := homeLoc env ++ [".gobrew"].
Definition versionsLoc (env : Env) : loc := installLoc env ++ ["versions"].
Definition currentLoc (env : Env) : loc := installLoc env ++ ["current"].
Definition downloadsLoc (env : Env) : loc := installLoc env ++ ["downloads"].
Definition versionLoc (env : Env) (version : string) : loc :=
  extend (versionsLoc env) (Split version).

(** What [git ls-remote --tags] prints for a list of tags of the form
    [go<version>], each with the name of its object: one line per tag. *)
Fixpoint ls_remote_lines (tags : list (string * string)) : string :=
  match tags with
  | [] => ""
  | (sha, version) :: tags' =>
      sha +:+ String "009" ("refs/tags/go" +:+ version
        +:+ String newline (ls_remote_lines tags'))
  end.

(** The events of a trace that stand for work outside the process. *)
Definition is_external (e : event) : bool :=
  match e with
  | Fetch _ _ | Exec _ _ => true
  | _ => false
  end.

(** The events of a trace that change the tree. *)
Definition is_mutation (e : event) : bool :=
  match e with
  | Log _ => false
  | _ => true
  end.

End Gobrew.

Import Gobrew.

(** ** Hosts and trees to run on *)

Module Scenario.

(** A download that arrives: the file is written, over an old one if
    need be, when its directory is there. *)
Definition fetch_ok (url path : string) (d : files) : files * option string :=
  match entry_of [] 40 d path with
  | Some (dir, c) => (<[dir ++ [c] := File]> d, None)
  | None => (d, Some ("open " +:+ path +:+ ": no such file or directory"))
  end.

(** An archive with [go/bin] at its top, unpacked into a directory. *)
Definition untar_go (archive dir : string) (d : files) : files * option string :=
  match Stat [] 40 d archive, Stat [] 40 d dir with
  | Some _, Some l =>
      if is_dir d l
      then (<[l ++ ["go"; "bin"] := Dir]> (<[l ++ ["go"] := Dir]> d), None)
      else (d, Some "exit status 2")
  | _, _ => (d, Some "exit status 2")
  end.

(** A download that fails before anything is written. *)
Definition fetch_fails (url path : string) (d : files) : files * option string :=
  (d, Some ("Get " +:+ url +:+ ": dial tcp: no such host")).

(** What was downloaded is no archive: [tar] fails and changes nothing. *)
Definition untar_fails (archive dir : string) (d : files)
  : files * option string :=
  (d, Some "exit status 2").

Definition host : Env :=
  {| HOME := "/home/u"; GOOS := "linux"; GOARCH := "amd64";
     workdir := []; MAXSYMLINKS := 40;
     Download := fetch_ok; tar_xf := untar_go |}.

(** The same host asked for a release that does not exist: the server
    answers, the answer is saved, and [tar] rejects it. *)
Definition host_no_release : Env :=
  {| HOME := "/home/u"; GOOS := "linux"; GOARCH := "amd64";
     workdir := []; MAXSYMLINKS := 40;
     Download := fetch_ok; tar_xf := untar_fails |}.

(** The same host without network. *)
Definition host_offline : Env :=
  {| HOME := "/home/u"; GOOS := "linux"; GOARCH := "amd64";
     workdir := []; MAXSYMLINKS := 40;
     Download := fetch_fails; tar_xf := untar_go |}.

(** The same programs run with [HOME] unset, in the directory [/srv]. *)
Definition host_no_home : Env :=
  {| HOME := ""; GOOS := "linux"; GOARCH := "amd64";
     workdir := ["srv"]; MAXSYMLINKS := 40;
     Download := fetch_ok; tar_xf := untar_go |}.

Definition gb : GoBrew := NewGoBrew host.

(** A home directory in which gobrew has never run. *)
Definition fresh_home : World :=
  {| disk := {[ ["home"] := Dir; ["home"; "u"] := Dir ]}; trace := [] |}.

(** A working directory [/srv] that holds a directory [go]. *)
Definition beside_go : World :=
  {| disk := {[ ["srv"] := Dir; ["srv"; "go"] := Dir ]}; trace := [] |}.

(** After [gobrew install 1.17]. *)
Definition installed : World := (Install host gb "1.17" fresh_home).1.

(** After [gobrew install 1.17] and [gobrew use 1.17]. *)
Definition active : World := (Use host gb "1.17" installed).1.

(** After these two and [gobrew install 1.18]. *)
Definition two_versions : World := (Install host gb "1.18" active).1.

End Scenario.

(** * Properties *)

(** ** Strings and lexical paths *)

Section path_lemmas.

#[local] Arguments ascii_dec : simpl never.

Lemma sapp_cons c s t : String c s +:+ t = String c (s +:+ t).
Proof. reflexivity. Qed.


Lemma sapp_assoc s t u : (s +:+ t) +:+ u = s +:+ (t +:+ u).
Proof. induction s as [|c s IH]; [done|]. by rewrite !sapp_cons, IH. Qed.

Lemma sapp_length s t :
  String.length (s +:+ t) = String.length s + String.length t.
Proof. induction s as [|c s IH]; [done|]. rewrite sapp_cons. simpl. lia. Qed.

Lemma eqb_false s t : s ≠ t → String.eqb s t = false.
Proof. by intros ?%String.eqb_neq. Qed.

Lemma Split_nonnil s : Split s ≠ [].
Proof.
  destruct s as [|c s]; [done|]. simpl.
  destruct (Ascii.eqb c sep); [done|]. by destruct (Split s).
Qed.

Lemma Split_app s t : Split (s +:+ String sep t) = Split s ++ Split t.
Proof.
  induction s as [|c s IH]; [done|].
  rewrite sapp_cons. simpl. rewrite IH.
  destruct (Ascii.eqb c sep); [done|].
  pose proof (Split_nonnil s). by destruct (Split s).
Qed.

Lemma Split_nosep c : nosep c → Split c = [c].
Proof.
  induction c as [|a c IH]; [done|]. simpl.
  destruct (Ascii.eqb a sep); [done|]. simpl. intros H. by rewrite IH.
Qed.

Lemma nosep_Split s : Forall nosep (Split s).
Proof.
  induction s as [|a s IH]; simpl; [by repeat constructor|].
  destruct (Ascii.eqb a sep) eqn:E; [by constructor|].
  destruct (Split s) as [|x xs]; [by repeat constructor; simpl; rewrite E|].
  inversion_clear IH. constructor; [|done]. simpl. by rewrite E.
Qed.

Lemma plain_nosep c : plain c → nosep c.
Proof. unfold plain. rewrite !andb_True. tauto. Qed.

Lemma plain_ne c : plain c → c ≠ "" ∧ c ≠ "." ∧ c ≠ "..".
Proof.
  unfold plain. rewrite !andb_True, !negb_True.
  intros (((_ & H1) & H2) & H3).
  repeat split; intros ->; [by apply H1|by apply H2|by apply H3].
Qed.

Lemma Forall_plain_nosep l : Forall plain l → Forall nosep l.
Proof. intros H. eapply Forall_impl; [done|]. apply plain_nosep. Qed.

Lemma Joins_cons a l : l ≠ [] → Joins (a :: l) = a +:+ String sep (Joins l).
Proof. by destruct l. Qed.

Lemma Split_Joins_flat l : l ≠ [] → Split (Joins l) = flat_map Split l.
Proof.
  induction l as [|a l IH]; [done|]. intros _.
  destruct l as [|b l]; [simpl; by rewrite app_nil_r|].
  rewrite Joins_cons by done. rewrite Split_app, IH by done. done.
Qed.

Lemma flat_map_Split l : Forall nosep l → flat_map Split l = l.
Proof.
  induction 1 as [|c l Hc _ IH]; [done|]. simpl.
  by rewrite Split_nosep, IH.
Qed.

Lemma Split_Joins l : l ≠ [] → Forall nosep l → Split (Joins l) = l.
Proof. intros. by rewrite Split_Joins_flat, flat_map_Split. Qed.

Lemma IsAbs_path_of l : IsAbs (path_of l) = true.
Proof. done. Qed.

Lemma path_of_ne l : path_of l ≠ "".
Proof. done. Qed.

Lemma Split_path_of l :
  Forall nosep l → l ≠ [] → Split (path_of l) = "" :: l.
Proof.
  intros Hl Hne. unfold path_of, render.
  change ("/" +:+ Joins l) with ("" +:+ String sep (Joins l)).
  by rewrite Split_app, Split_Joins.
Qed.

Lemma path_of_snoc l c :
  l ≠ [] → path_of (l ++ [c]) = path_of l +:+ String sep c.
Proof.
  intros Hne. unfold path_of, render. rewrite sapp_assoc. f_equal.
  induction l as [|a l IH]; [done|].
  destruct l as [|b l]; [done|].
  change ((a :: b :: l) ++ [c]) with (a :: ((b :: l) ++ [c])).
  rewrite !Joins_cons by done. rewrite IH by done.
  by rewrite sapp_assoc.
Qed.

Lemma clean_step_plain b st c : plain c → clean_step b st c = c :: st.
Proof.
  intros (? & ? & ?)%plain_ne. unfold clean_step.
  by rewrite !eqb_false.
Qed.

Lemma fold_clean_plain b cs st :
  Forall plain cs → fold_left (clean_step b) cs st = rev cs ++ st.
Proof.
  intros H. revert st. induction H as [|c cs Hc _ IH]; intros st; [done|].
  simpl. rewrite clean_step_plain, IH by done. by rewrite <- app_assoc.
Qed.

Lemma extend_plain l cs : Forall plain cs → extend l cs = l ++ cs.
Proof.
  intros H. unfold extend. rewrite fold_clean_plain by done.
  by rewrite rev_app_distr, !rev_involutive.
Qed.

Lemma extend_app l cs ds : extend l (cs ++ ds) = extend (extend l cs) ds.
Proof. unfold extend. by rewrite fold_left_app, rev_involutive. Qed.

Lemma clean_step_keeps_plain st c :
  nosep c → Forall plain st → Forall plain (clean_step true st c).
Proof.
  intros Hc Hst. unfold clean_step.
  destruct (String.eqb_spec c ""); [done|].
  destruct (String.eqb_spec c "."); [done|].
  destruct (String.eqb_spec c "..").
  - destruct st as [|t st]; [done|]. inversion_clear Hst as [|?? Ht ?].
    destruct (String.eqb_spec t "..") as [->|]; [done|done].
  - constructor; [|done]. unfold plain.
    rewrite !andb_True, !negb_True. repeat split; try done.
    all: by intros ?%Is_true_true%String.eqb_eq.
Qed.

Lemma fold_clean_keeps_plain cs st :
  Forall nosep cs → Forall plain st →
  Forall plain (fold_left (clean_step true) cs st).
Proof.
  intros H. revert st. induction H as [|c cs Hc _ IH]; intros st Hst; [done|].
  simpl. by apply IH, clean_step_keeps_plain.
Qed.

Lemma extend_keeps_plain l cs :
  Forall plain l → Forall nosep cs → Forall plain (extend l cs).
Proof.
  intros Hl Hcs. unfold extend. apply Forall_rev.
  apply fold_clean_keeps_plain; [done|]. by apply Forall_rev.
Qed.

Lemma loc_of_plain s : Forall plain (loc_of s).
Proof.
  unfold loc_of, clean_stack. apply Forall_rev.
  apply fold_clean_keeps_plain; [apply nosep_Split|done].
Qed.

Lemma IsAbs_app a s : IsAbs a = true → IsAbs (a +:+ s) = true.
Proof. by destruct a. Qed.

(** [Join] of an absolute first element: the location it names,
    extended by the elements of the others. *)
Lemma Join_abs a es :
  IsAbs a = true →
  Join (a :: es) = path_of (extend (loc_of a) (flat_map Split es)).
Proof.
  intros Ha. assert (a ≠ "") as Hne by (by intros ->).
  simpl. rewrite eqb_false by done. unfold Clean.
  assert (IsAbs (Joins (a :: es)) = true) as ->.
  { destruct es; [done|]. rewrite Joins_cons by done. by apply IsAbs_app. }
  unfold path_of. f_equal. unfold clean_stack, extend, loc_of, clean_stack.
  rewrite Split_Joins_flat by done. simpl.
  by rewrite fold_left_app, rev_involutive.
Qed.

Lemma loc_of_path_of l : Forall plain l → loc_of (path_of l) = l.
Proof.
  intros Hl. unfold loc_of, clean_stack.
  destruct l as [|a l]; [done|].
  rewrite Split_path_of by (by try apply Forall_plain_nosep).
  change (fold_left (clean_step true) ("" :: a :: l) [])
    with (fold_left (clean_step true) (a :: l) []).
  rewrite fold_clean_plain by done.
  by rewrite app_nil_r, rev_involutive.
Qed.

Lemma Join_path_of l es :
  Forall plain l →
  Join (path_of l :: es) = path_of (extend l (flat_map Split es)).
Proof. intros Hl. by rewrite Join_abs, loc_of_path_of. Qed.

(** *** [ReplaceAll] on paths *)




Lemma sprefix_app p s : String.prefix p (p +:+ s) = true.
Proof.
  induction p as [|a p IH]; [by destruct s|].
  rewrite sapp_cons. simpl. by destruct (ascii_dec a a).
Qed.

Lemma replace_skip old new x rest :
  replace_from old new (String.length x) (x +:+ rest)
  = replace_from old new 0 rest.
Proof. induction x as [|a x IH]; [done|]. by rewrite sapp_cons. Qed.

Lemma replace_match a o new rest :
  replace_from (String a o) new 0 (String a o +:+ rest)
  = new +:+ replace_from (String a o) new 0 rest.
Proof.
  rewrite sapp_cons.
  change (replace_from ?old new 0 (String a ?s))
    with (if String.prefix old (String a s)
          then new +:+ replace_from old new (String.length old - 1) s
          else String a (replace_from old new 0 s)).
  rewrite <- sapp_cons, sprefix_app. f_equal. simpl.
  rewrite Nat.sub_0_r. apply replace_skip.
Qed.





Lemma segs_abs l : segs l = "" ∨ IsAbs (segs l) = true.
Proof. destruct l; [by left|by right]. Qed.



End path_lemmas.

(** ** What [Clean] returns *)

Section clean_lemmas.

#[local] Arguments ascii_dec : simpl never.

Lemma plain_intro c : nosep c → c ≠ "" → c ≠ "." → c ≠ ".." → plain c.
Proof.
  intros Hn H1 H2 H3. unfold plain.
  rewrite !andb_True, !negb_True.
  repeat split; [done|..]; by intros ->%Is_true_true%String.eqb_eq.
Qed.

Lemma clean_shape_dots b st :
  b = false → Forall (eq "..") st → clean_shape b st.
Proof. intros Hb Hs. destruct st; [done|]. by right. Qed.

Lemma clean_step_shape b st c :
  nosep c → clean_shape b st → clean_shape b (clean_step b st c).
Proof.
  intros Hc Hst. unfold clean_step.
  destruct (String.eqb_spec c "") as [->|H1]; [done|].
  destruct (String.eqb_spec c ".") as [->|H2]; [done|].
  destruct (String.eqb_spec c "..") as [->|H3].
  - destruct st as [|t st].
    + destruct b; [done|]. right. by repeat constructor.
    + destruct (String.eqb_spec t "..") as [->|Ht].
      * destruct Hst as [[Hp _]|[Hb Hd]].
        { by apply plain_ne in Hp as (_ & _ & ?). }
        right. split; [done|]. by constructor.
      * destruct Hst as [[_ Hst]|[Hb Hd]]; [done|].
        inversion_clear Hd. congruence.
  - left. split; [|done]. by apply plain_intro.
Qed.

Lemma fold_clean_shape b cs st :
  Forall nosep cs → clean_shape b st →
  clean_shape b (fold_left (clean_step b) cs st).
Proof.
  intros Hcs. revert st. induction Hcs as [|c cs Hc _ IH]; intros st Hst.
  - done.
  - simpl. by apply IH, clean_step_shape.
Qed.

Lemma clean_shape_nosep b st : clean_shape b st → Forall nosep st.
Proof.
  induction st as [|c st IH]; [done|].
  intros [[Hp Hst]|[_ Hd]].
  - constructor; [by apply plain_nosep|by apply IH].
  - eapply Forall_impl; [done|]. by intros ? <-.
Qed.

Lemma clean_shape_ne b st : clean_shape b st → Forall (λ c, c ≠ "") st.
Proof.
  induction st as [|c st IH]; [done|].
  intros [[Hp Hst]|[_ Hd]].
  - constructor; [by apply plain_ne in Hp as (? & _)|by apply IH].
  - eapply Forall_impl; [done|]. by intros ? <-.
Qed.

Lemma fold_clean_dots cs st :
  Forall (eq "..") cs → Forall (eq "..") st →
  fold_left (clean_step false) cs st = rev cs ++ st.
Proof.
  intros Hcs. revert st. induction Hcs as [|c cs <- _ IH]; intros st Hst.
  - done.
  - simpl. rewrite <- app_assoc. simpl.
    destruct Hst as [|t st <- Hst]; simpl.
    + apply IH. by repeat constructor.
    + apply IH. by repeat constructor.
Qed.

(** Cleaning the elements of a cleaned stack gives the stack back. *)
Lemma clean_replay b st :
  clean_shape b st → fold_left (clean_step b) (rev st) [] = st.
Proof.
  induction st as [|c st IH]; [done|].
  intros [[Hp Hst]|[-> Hd]].
  - simpl. rewrite fold_left_app, IH by done. simpl.
    by rewrite clean_step_plain.
  - rewrite fold_clean_dots; [|by apply Forall_rev|done].
    by rewrite rev_involutive, app_nil_r.
Qed.

Lemma clean_replay_render b st :
  clean_shape b st →
  fold_left (clean_step b) (Split (render b (rev st))) [] = st.
Proof.
  intros Hst. pose proof (clean_shape_nosep _ _ Hst) as Hn.
  destruct (decide (st = [])) as [->|Hne].
  { by destruct b. }
  assert (rev st ≠ []) as Hne'.
  { intros H. apply Hne. by rewrite <- (rev_involutive st), H. }
  destruct b; unfold render.
  - change ("/" +:+ Joins (rev st)) with ("" +:+ String sep (Joins (rev st))).
    rewrite Split_app, Split_Joins by (done || by apply Forall_rev).
    simpl. by apply clean_replay.
  - assert (Forall nosep (rev st)) as Hn' by (by apply Forall_rev).
    destruct (rev st) as [|x l] eqn:E; [done|]. rewrite <- E in *.
    rewrite Split_Joins by done.
    by apply clean_replay.
Qed.

Lemma Joins_ne l : l ≠ [] → Forall (λ c, c ≠ "") l → Joins l ≠ "".
Proof.
  destruct l as [|c l]; [done|]. intros _ Hl. inversion_clear Hl as [|?? Hc _].
  destruct l; [done|]. rewrite Joins_cons by done. by destruct c.
Qed.

Lemma IsAbs_Joins l :
  Forall nosep l → Forall (λ c, c ≠ "") l → IsAbs (Joins l) = false.
Proof.
  destruct l as [|c l]; [done|]. intros Hn Hne.
  inversion_clear Hn as [|?? Hc _]. inversion_clear Hne as [|?? Hc' _].
  assert (IsAbs c = false) as Hcabs.
  { destruct c as [|a c]; [done|]. simpl in *.
    by destruct (Ascii.eqb a sep). }
  destruct l; [done|]. rewrite Joins_cons by done.
  by destruct c.
Qed.

Lemma render_shape_ne b st : clean_shape b st → render b (rev st) ≠ "".
Proof.
  intros Hst. destruct b; [done|]. unfold render.
  destruct (rev st) eqn:E; [done|]. rewrite <- E.
  apply Joins_ne; [by rewrite E|].
  apply Forall_rev. by eapply clean_shape_ne.
Qed.

Lemma IsAbs_render b st : clean_shape b st → IsAbs (render b (rev st)) = b.
Proof.
  intros Hst. destruct b; [done|]. unfold render.
  destruct (rev st) eqn:E; [done|]. rewrite <- E.
  apply IsAbs_Joins; apply Forall_rev;
    [by eapply clean_shape_nosep|by eapply clean_shape_ne].
Qed.

Lemma IsAbs_app_ne a s : a ≠ "" → IsAbs (a +:+ s) = IsAbs a.
Proof. by destruct a. Qed.

(** [Clean] gives the rendering of a cleaned stack. *)
Lemma Clean_shape s :
  ∃ st, clean_shape (IsAbs s) st ∧ Clean s = render (IsAbs s) (rev st).
Proof.
  exists (fold_left (clean_step (IsAbs s)) (Split s) []). split.
  - apply fold_clean_shape; [apply nosep_Split|done].
  - unfold Clean, clean_stack. done.
Qed.

(** Cleaning a cleaned path followed by more elements continues from
    the stack of the cleaned path. *)
Lemma Clean_continue b st v :
  clean_shape b st →
  Clean (render b (rev st) +:+ String sep v)
  = render b (rev (fold_left (clean_step b) (Split v) st)).
Proof.
  intros Hst. unfold Clean, clean_stack.
  rewrite IsAbs_app_ne by (by apply render_shape_ne).
  rewrite IsAbs_render by done.
  by rewrite Split_app, fold_left_app, clean_replay_render.
Qed.

Lemma Join_two a v : a ≠ "" → Join [a; v] = Clean (a +:+ String sep v).
Proof. intros Ha. simpl. by rewrite eqb_false. Qed.

Lemma Joins_app l k :
  l ≠ [] → k ≠ [] → Joins (l ++ k) = Joins l +:+ String sep (Joins k).
Proof.
  intros Hl Hk. induction l as [|a l IH]; [done|].
  destruct l as [|b l].
  - simpl app. by rewrite Joins_cons.
  - change ((a :: b :: l) ++ k) with (a :: (b :: l) ++ k).
    rewrite !Joins_cons by done. rewrite IH by done.
    by rewrite sapp_assoc.
Qed.

Lemma Joins_Split s : Joins (Split s) = s.
Proof.
  induction s as [|a s IH]; [done|]. simpl.
  destruct (Ascii.eqb_spec a sep) as [->|Ha].
  - rewrite Joins_cons by apply Split_nonnil. by rewrite IH.
  - pose proof (Split_nonnil s).
    destruct (Split s) as [|x xs] eqn:E; [done|].
    rewrite <- IH. destruct xs as [|y ys]; [done|].
    by rewrite (Joins_cons (String a x)), (Joins_cons x).
Qed.

Lemma render_app b l k :
  l ≠ [] → k ≠ [] →
  render b (l ++ k) = render b l +:+ String sep (Joins k).
Proof.
  intros Hl Hk. unfold render. destruct b.
  - rewrite Joins_app by done. done.
  - destruct l as [|a l]; [done|]. simpl app.
    change (a :: l ++ k) with ((a :: l) ++ k). by rewrite Joins_app.
Qed.

Lemma Split_render b l :
  l ≠ [] → Forall nosep l →
  Split (render b l) = (if b then [""] else []) ++ l.
Proof.
  intros Hl Hn. destruct b; unfold render.
  - change ("/" +:+ Joins l) with ("" +:+ String sep (Joins l)).
    by rewrite Split_app, Split_Joins.
  - destruct l; [done|]. by rewrite Split_Joins.
Qed.

Lemma clean_shape_above b l c st :
  clean_shape b (l ++ c :: st) → c ≠ ".." → Forall plain l.
Proof.
  intros Hs Hc. induction l as [|x l IH]; [done|].
  destruct Hs as [[Hx Hs]|[_ Hd]].
  - constructor; [done|by apply IH].
  - inversion_clear Hd as [|?? _ Hd'].
    apply Forall_app in Hd' as [_ Hd']. by inversion_clear Hd'.
Qed.

End clean_lemmas.

(** The versions directory is a cleaned path that ends in [versions],
    whatever [HOME] is. *)
Lemma versionsDir_shape env :
  ∃ b st,
    clean_shape b ("versions" :: st)
    ∧ versionsDir (NewGoBrew env) = render b (rev ("versions" :: st)).
Proof.
  assert (∃ s, installDir (NewGoBrew env) = Clean s) as [s Hs].
  { cbn [installDir NewGoBrew]. simpl Join.
    destruct (String.eqb (HOME env) ""); by eexists. }
  destruct (Clean_shape s) as (st & Hst & Hcl).
  exists (IsAbs s), st.
  assert (clean_shape (IsAbs s) ("versions" :: st)) as Hst' by (by left).
  split; [done|].
  change (versionsDir (NewGoBrew env))
    with (Join [installDir (NewGoBrew env); "versions"]).
  rewrite Hs, Hcl.
  rewrite Join_two by (by apply render_shape_ne).
  by rewrite Clean_continue.
Qed.

(** ** The paths of [NewGoBrew] *)

Section gobrew_paths.
Context (env : Env) (Habs : IsAbs (HOME env) = true).

Lemma homeLoc_plain : Forall plain (homeLoc env).
Proof. apply loc_of_plain. Qed.

Lemma installLoc_plain : Forall plain (installLoc env).
Proof. apply Forall_app; split; [apply homeLoc_plain|by repeat constructor]. Qed.

Lemma versionsLoc_plain : Forall plain (versionsLoc env).
Proof. apply Forall_app; split; [apply installLoc_plain|by repeat constructor]. Qed.

Lemma currentLoc_plain : Forall plain (currentLoc env).
Proof. apply Forall_app; split; [apply installLoc_plain|by repeat constructor]. Qed.

Lemma versionLoc_plain v : Forall plain (versionLoc env v).
Proof. apply extend_keeps_plain; [apply versionsLoc_plain|apply nosep_Split]. Qed.

Lemma versionLoc_of_plain v :
  plain v → versionLoc env v = versionsLoc env ++ [v].
Proof.
  intros Hv. unfold versionLoc.
  rewrite Split_nosep by (by apply plain_nosep).
  apply extend_plain. by repeat constructor.
Qed.

Lemma installDir_eq :
  installDir (NewGoBrew env) = path_of (installLoc env).
Proof.
  change (installDir (NewGoBrew env)) with (Join [HOME env; goBrewDir]).
  rewrite Join_abs by done. f_equal.
  apply extend_plain. by repeat constructor.
Qed.

Lemma Join_installDir es :
  Forall plain es →
  Join (installDir (NewGoBrew env) :: es) = path_of (installLoc env ++ es).
Proof.
  intros Hes. rewrite installDir_eq, Join_path_of by apply installLoc_plain.
  rewrite flat_map_Split by by apply Forall_plain_nosep.
  by rewrite extend_plain.
Qed.

Lemma versionsDir_eq :
  versionsDir (NewGoBrew env) = path_of (versionsLoc env).
Proof. apply (Join_installDir ["versions"]). by repeat constructor. Qed.

Lemma currentDir_eq :
  currentDir (NewGoBrew env) = path_of (currentLoc env).
Proof. apply (Join_installDir ["current"]). by repeat constructor. Qed.

Lemma currentBinDir_eq :
  currentBinDir (NewGoBrew env) = path_of (currentLoc env ++ ["bin"]).
Proof.
  unfold currentLoc. rewrite <- app_assoc.
  apply (Join_installDir ["current"; "bin"]). by repeat constructor.
Qed.

Lemma currentGoDir_eq :
  currentGoDir (NewGoBrew env) = path_of (currentLoc env ++ ["go"]).
Proof.
  unfold currentLoc. rewrite <- app_assoc.
  apply (Join_installDir ["current"; "go"]). by repeat constructor.
Qed.

Lemma downloadsDir_eq :
  downloadsDir (NewGoBrew env) = path_of (downloadsLoc env).
Proof. apply (Join_installDir ["downloads"]). by repeat constructor. Qed.

Lemma Join_versionsDir v es :
  Forall plain es →
  Join (versionsDir (NewGoBrew env) :: v :: es)
  = path_of (versionLoc env v ++ es).
Proof.
  intros Hes. rewrite versionsDir_eq, Join_path_of by apply versionsLoc_plain.
  f_equal. change (flat_map Split (v :: es)) with (Split v ++ flat_map Split es).
  rewrite extend_app, flat_map_Split by by apply Forall_plain_nosep.
  by rewrite extend_plain.
Qed.

Lemma getVersionDir_eq v :
  getVersionDir (NewGoBrew env) v = path_of (versionLoc env v).
Proof.
  unfold getVersionDir. rewrite (Join_versionsDir v []) by done.
  by rewrite app_nil_r.
Qed.

Lemma goDir_eq v :
  Join [versionsDir (NewGoBrew env); v; "go"]
  = path_of (versionLoc env v ++ ["go"]).
Proof. apply Join_versionsDir. by repeat constructor. Qed.

Lemma goBinDst_eq v :
  Join [versionsDir (NewGoBrew env); v; "/go/bin"]
  = path_of (versionLoc env v ++ ["go"; "bin"]).
Proof.
  rewrite versionsDir_eq, Join_path_of by apply versionsLoc_plain.
  f_equal. change (flat_map Split [v; "/go/bin"]) with (Split v ++ [""; "go"; "bin"]).
  rewrite extend_app. unfold extend at 1.
  change (fold_left (clean_step true) [""; "go"; "bin"] ?st)
    with (fold_left (clean_step true) ["go"; "bin"] st).
  by rewrite fold_clean_plain, rev_app_distr, rev_involutive by by repeat constructor.
Qed.



End gobrew_paths.

(** ** Path resolution *)

Section walk_lemmas.

Lemma walk_nil fs follow n cur r : walk fs follow n cur r [] = Some (cur, r).
Proof. by destruct n. Qed.

Lemma walk_cons fs follow n cur r c rest :
  walk fs follow n cur r (c :: rest) =
    if negb (is_dir fs cur) then None
    else if String.eqb c "" then walk fs follow n cur r rest
    else if String.eqb c "." then walk fs follow n cur r rest
    else if String.eqb c ".." then
      walk fs follow n (removelast cur) (rel_up r) rest
    else
      match fs !! (cur ++ [c]) with
      | None => None
      | Some (Link t) =>
          match rest with
          | [] => if follow then follow_link fs follow n cur r t rest
                  else Some (cur ++ [c], rel_push c r)
          | _ => follow_link fs follow n cur r t rest
          end
      | Some _ => walk fs follow n (cur ++ [c]) (rel_push c r) rest
      end.
Proof. by destruct n. Qed.

Lemma walk_plain fs follow n cur r c rest :
  plain c →
  walk fs follow n cur r (c :: rest) =
    if negb (is_dir fs cur) then None
    else
      match fs !! (cur ++ [c]) with
      | None => None
      | Some (Link t) =>
          match rest with
          | [] => if follow then follow_link fs follow n cur r t rest
                  else Some (cur ++ [c], rel_push c r)
          | _ => follow_link fs follow n cur r t rest
          end
      | Some _ => walk fs follow n (cur ++ [c]) (rel_push c r) rest
      end.
Proof.
  intros (? & ? & ?)%plain_ne. rewrite walk_cons.
  by rewrite !eqb_false by done.
Qed.

Lemma is_dir_root fs : is_dir fs [] = true.
Proof. done. Qed.

Lemma is_dir_lookup fs l :
  l ≠ [] → is_dir fs l = true ↔ fs !! l = Some Dir.
Proof.
  intros Hl. unfold is_dir, node_at. destruct l; [done|].
  destruct (fs !! _) as [[]|]; split; congruence.
Qed.

Lemma snoc_ne_nil {A} (l : list A) x : l ++ [x] ≠ [].
Proof. by destruct l. Qed.


Lemma dirs_is_dir fs l : dirs fs l → is_dir fs l = true.
Proof. intros Hl. by apply Hl. Qed.

(** Directories on the way are walked through. *)
Lemma walk_dirs_app fs follow n cur cs rest :
  dirs fs (cur ++ cs) → Forall plain cs →
  walk fs follow n cur None (cs ++ rest)
  = walk fs follow n (cur ++ cs) None rest.
Proof.
  intros Hd Hcs. revert cur Hd.
  induction Hcs as [|c cs Hc _ IH]; intros cur Hd.
  { by rewrite app_nil_r. }
  simpl. rewrite walk_plain by done.
  assert (is_dir fs cur = true) as ->.
  { apply Hd. by apply prefix_app_r. }
  assert (fs !! (cur ++ [c]) = Some Dir) as ->.
  { apply is_dir_lookup; [apply snoc_ne_nil|]. apply Hd.
    apply prefix_app, prefix_cons, prefix_nil. }
  simpl. rewrite IH; rewrite <- app_assoc; done.
Qed.

Lemma walk_dirs fs follow n cs :
  dirs fs cs → Forall plain cs →
  walk fs follow n [] None cs = Some (cs, None).
Proof.
  intros Hd Hcs.
  rewrite <- (app_nil_r cs) at 1.
  rewrite walk_dirs_app by done. apply walk_nil.
Qed.

(** An absolute clean path is resolved from the root, element by
    element. *)
Lemma resolve_path_of fs cwd follow n l :
  Forall plain l →
  resolve fs cwd follow n (path_of l) = walk fs follow n [] None l.
Proof.
  intros Hl. unfold resolve, start. rewrite IsAbs_path_of.
  destruct l as [|a l].
  - change (Split (path_of [])) with [""; ""].
    by rewrite !walk_cons, walk_nil.
  - rewrite Split_path_of by by try apply Forall_plain_nosep.
    by rewrite walk_cons.
Qed.

Lemma remove_tree_lookup l fs k :
  remove_tree l fs !! k = if decide (l `prefix_of` k) then None else fs !! k.
Proof.
  unfold remove_tree. apply option_eq. intros x.
  rewrite map_lookup_filter_Some. simpl.
  case_decide; [|tauto]. split; [tauto|done].
Qed.

Lemma remove_tree_subseteq l fs : remove_tree l fs ⊆ fs.
Proof. apply map_filter_subseteq. Qed.

Lemma is_dir_mono fs fs' l :
  fs ⊆ fs' → is_dir fs l = true → is_dir fs' l = true.
Proof.
  intros Hsub. destruct l as [|a l]; [done|].
  rewrite !is_dir_lookup by done. intros H.
  by eapply lookup_weaken.
Qed.

(** Resolution only reads what is there: it succeeds all the same in a
    larger tree. *)
Lemma walk_mono fs fs' follow n cur r todo x :
  fs ⊆ fs' →
  walk fs follow n cur r todo = Some x →
  walk fs' follow n cur r todo = Some x.
Proof.
  intros Hsub. revert cur r todo x.
  induction n as [|n IHn]; intros cur r todo; revert cur r;
    (induction todo as [|c rest IH]; intros cur r x;
     [by rewrite !walk_nil|]).
  all: rewrite !walk_cons.
  all: destruct (is_dir fs cur) eqn:Ed; [|done].
  all: rewrite (is_dir_mono _ _ _ Hsub Ed); simpl.
  all: destruct (String.eqb c ""); [apply IH|].
  all: destruct (String.eqb c "."); [apply IH|].
  all: destruct (String.eqb c ".."); [apply IH|].
  all: destruct (_ !! (cur ++ [c])) as [nd|] eqn:El; [|done].
  all: rewrite (lookup_weaken _ _ _ _ El Hsub).
  all: destruct nd; [apply IH|apply IH|].
  all: unfold follow_link; try destruct (link_start _ cur r).
  all: destruct rest; [destruct follow|]; try done; apply IHn.
Qed.

(** Once the node a path leads to is removed, the path extended by one
    more element leads nowhere. *)
Lemma walk_removed fs n cur r todo l r' c :
  plain c →
  walk fs false n cur r todo = Some (l, r') →
  ∀ m r2, walk (remove_tree l fs) true m cur r2 (todo ++ [c]) = None.
Proof.
  intros Hc. revert cur r todo.
  induction n as [|n IHn]; intros cur r todo; revert cur r;
    induction todo as [|a rest IH]; intros cur r Hw m r2.
  1,3: rewrite walk_nil in Hw; simplify_eq; simpl;
    rewrite walk_plain by done;
    destruct (is_dir _ l); [|done]; simpl;
    rewrite remove_tree_lookup, decide_True by (by apply prefix_app_r);
    done.
  all: rewrite walk_cons in Hw.
  all: change ((a :: rest) ++ [c]) with (a :: (rest ++ [c])).
  all: rewrite walk_cons.
  all: destruct (is_dir fs cur); [|done]; simpl in Hw.
  all: destruct (is_dir (remove_tree l fs) cur); [|done]; simpl.
  all: destruct (String.eqb a ""); [by eapply IH|].
  all: destruct (String.eqb a "."); [by eapply IH|].
  all: destruct (String.eqb a ".."); [by eapply IH|].
  all: destruct (fs !! (cur ++ [a])) as [nd|] eqn:El; [|done].
  all: rewrite remove_tree_lookup; case_decide as Hp; [done|]; rewrite El.
  all: destruct nd; [by eapply IH|by eapply IH|].
  all: destruct rest as [|b rest]; simpl in *; [by simplify_eq|].
  all: unfold follow_link, link_start in *; try done.
  all: destruct m as [|m]; [done|].
  all: destruct (IsAbs target).
  all: change (b :: rest ++ [c]) with ((b :: rest) ++ [c]).
  all: rewrite app_assoc; by eapply IHn.
Qed.

(** A path that leads nowhere, extended, leads nowhere. *)
Lemma walk_nofollow_None fs n cur r todo c :
  plain c →
  walk fs false n cur r todo = None →
  walk fs true n cur r (todo ++ [c]) = None.
Proof.
  intros Hc. revert cur r todo.
  induction n as [|n IHn]; intros cur r todo; revert cur r;
    induction todo as [|a rest IH]; intros cur r Hw.
  1,3: by rewrite walk_nil in Hw.
  all: rewrite walk_cons in Hw.
  all: change ((a :: rest) ++ [c]) with (a :: (rest ++ [c])).
  all: rewrite walk_cons.
  all: destruct (is_dir fs cur); [|done]; simpl in *.
  all: destruct (String.eqb a ""); [by eapply IH|].
  all: destruct (String.eqb a "."); [by eapply IH|].
  all: destruct (String.eqb a ".."); [by eapply IH|].
  all: destruct (fs !! (cur ++ [a])) as [nd|] eqn:El; [|done].
  all: destruct nd; [by eapply IH|by eapply IH|].
  all: destruct rest as [|b rest]; simpl in *; [done|].
  all: unfold follow_link in *; try done.
  all: destruct (link_start target cur r).
  all: change (b :: rest ++ [c]) with ((b :: rest) ++ [c]).
  all: rewrite app_assoc; by eapply IHn.
Qed.

Lemma walk_app_None fs n cur r todo more :
  walk fs true n cur r todo = None →
  walk fs true n cur r (todo ++ more) = None.
Proof.
  revert cur r todo.
  induction n as [|n IHn]; intros cur r todo; revert cur r;
    induction todo as [|a rest IH]; intros cur r Hw.
  1,3: by rewrite walk_nil in Hw.
  all: rewrite walk_cons in Hw.
  all: change ((a :: rest) ++ more) with (a :: (rest ++ more)).
  all: rewrite walk_cons.
  all: destruct (is_dir fs cur); [|done]; simpl in *.
  all: destruct (String.eqb a ""); [by eapply IH|].
  all: destruct (String.eqb a "."); [by eapply IH|].
  all: destruct (String.eqb a ".."); [by eapply IH|].
  all: destruct (fs !! (cur ++ [a])) as [nd|] eqn:El; [|done].
  all: destruct nd; [by eapply IH|by eapply IH|].
  all: assert (follow_link fs true _ cur r target rest = None) as Hw'
    by (by destruct rest).
  all: assert (∀ X : option (loc * relpath),
      X = None →
      match rest ++ more with
      | [] => X
      | _ :: _ => X
      end = None) as Hm by (intros X ->; by destruct (rest ++ more)).
  all: unfold follow_link in *.
  1: by destruct (rest ++ more).
  destruct (link_start target cur r).
  destruct (rest ++ more) eqn:Erm;
    rewrite <- Erm, app_assoc; by apply IHn.
Qed.

(** Where no link is met, resolution is a chain of lookups: the bound
    on links and the treatment of a last link do not matter, nor does
    the rest of the tree. *)
Lemma walk_no_link fs fs' f f' n n' cur r cs :
  Forall plain cs → no_link fs (cur ++ cs) →
  (∀ p, p `prefix_of` (cur ++ cs) → fs' !! p = fs !! p) →
  walk fs' f' n' cur r cs = walk fs f n cur r cs.
Proof.
  intros Hcs. revert cur r.
  induction Hcs as [|c cs Hc _ IH]; intros cur r Hnl Hag.
  { by rewrite !walk_nil. }
  rewrite !walk_plain by done.
  assert (is_dir fs' cur = is_dir fs cur) as ->.
  { unfold is_dir, node_at. destruct cur; [done|].
    rewrite Hag; [done|]. by apply prefix_app_r. }
  destruct (is_dir fs cur); [|done]. simpl.
  assert (cur ++ [c] `prefix_of` cur ++ c :: cs) as Hp.
  { apply prefix_app, prefix_cons, prefix_nil. }
  rewrite (Hag _ Hp).
  destruct (fs !! (cur ++ [c])) as [nd|] eqn:El; [|done].
  destruct nd.
  3: by apply Hnl in El.
  all: apply IH; rewrite <- app_assoc; done.
Qed.

End walk_lemmas.

(** ** System calls on absolute clean paths *)

Section syscall_lemmas.
Context (cwd : loc) (M : nat).

#[local] Arguments path_of : simpl never.
#[local] Arguments Split : simpl never.

Lemma lookup_path_of follow fs l :
  Forall plain l →
  lookup_path cwd M follow fs (path_of l)
  = fst <$> walk fs follow M [] None l.
Proof.
  intros Hl. unfold lookup_path.
  rewrite eqb_false by apply path_of_ne.
  by rewrite resolve_path_of.
Qed.

Lemma endsWithDot_path_of l :
  Forall plain l → endsWithDot (path_of l) = false.
Proof.
  intros Hl. unfold endsWithDot.
  rewrite eqb_false by (by destruct l).
  destruct l as [|a l _] using rev_ind; [done|].
  rewrite Split_path_of
    by (by first [apply Forall_plain_nosep|apply snoc_ne_nil]).
  change ("" :: l ++ [a]) with (("" :: l) ++ [a]).
  rewrite rev_app_distr. simpl.
  apply Forall_app in Hl as [_ Ha]. inversion_clear Ha as [|?? Ha' _].
  apply plain_ne in Ha' as (_ & ? & _).
  rewrite eqb_false by done.
  by destruct (rev l).
Qed.

Lemma RemoveAll_path_of fs l :
  Forall plain l →
  RemoveAll cwd M fs (path_of l)
  = match walk fs false M [] None l with
    | Some (k, _) => (remove_tree k fs, true)
    | None => (fs, true)
    end.
Proof.
  intros Hl. unfold RemoveAll, Lstat.
  rewrite eqb_false by apply path_of_ne.
  rewrite endsWithDot_path_of, lookup_path_of by done.
  by destruct (walk _ _ _ _ _ _) as [[]|].
Qed.

(** What [RemoveAll] took away cannot be entered any more. *)
Lemma gone_after_RemoveAll fs l c :
  Forall plain l → plain c →
  Stat cwd M (RemoveAll cwd M fs (path_of l)).1 (path_of (l ++ [c])) = None.
Proof.
  intros Hl Hc. rewrite RemoveAll_path_of by done.
  unfold Stat. rewrite lookup_path_of
    by (apply Forall_app; split; [done|by repeat constructor]).
  destruct (walk fs false M [] None l) as [[k r]|] eqn:Ew; simpl.
  - by erewrite walk_removed.
  - by rewrite walk_nofollow_None.
Qed.

Lemma is_dir_same_outside k fs fs' p :
  same_outside k fs fs' → ¬ k `prefix_of` p → is_dir fs' p = is_dir fs p.
Proof.
  intros Hso Hp. unfold is_dir, node_at. destruct p; [done|].
  by rewrite Hso.
Qed.

Lemma dirs_same_outside k fs fs' l :
  dirs fs l → same_outside k fs fs' → ¬ k `prefix_of` l → dirs fs' l.
Proof.
  intros Hd Hso Hk p Hp.
  rewrite (is_dir_same_outside k fs); [by apply Hd|done|].
  intros Hkp. apply Hk. by etrans.
Qed.

Lemma not_prefix_snoc {A} (l : list A) c p :
  p `prefix_of` l → ¬ (l ++ [c]) `prefix_of` p.
Proof.
  intros Hp Hl. assert (l ++ [c] `prefix_of` l) as Hlc by (by etrans).
  apply prefix_length in Hlc. rewrite length_app in Hlc. simpl in Hlc. lia.
Qed.

(** An entry of a directory reached without links. *)
Lemma walk_entry fs n P c :
  Forall plain P → plain c → dirs fs P →
  walk fs false n [] None (P ++ [c])
  = match fs !! (P ++ [c]) with
    | Some _ => Some (P ++ [c], None)
    | None => None
    end.
Proof.
  intros HP Hc Hd.
  rewrite walk_dirs_app by done.
  rewrite app_nil_l, walk_plain, (dirs_is_dir _ _ Hd) by done. simpl.
  destruct (fs !! (P ++ [c])) as [[]|]; by rewrite ?walk_nil.
Qed.

Lemma RemoveAll_entry fs P c :
  Forall plain P → plain c → dirs fs P →
  (RemoveAll cwd M fs (path_of (P ++ [c]))).1 !! (P ++ [c]) = None
  ∧ same_outside (P ++ [c]) fs (RemoveAll cwd M fs (path_of (P ++ [c]))).1.
Proof.
  intros HP Hc Hd.
  rewrite RemoveAll_path_of
    by (apply Forall_app; split; [done|by repeat constructor]).
  rewrite walk_entry by done.
  destruct (fs !! (P ++ [c])) as [nd|] eqn:El; simpl; [|done].
  split.
  - by rewrite remove_tree_lookup, decide_True.
  - intros k Hk. by rewrite remove_tree_lookup, decide_False.
Qed.

Lemma entry_of_entry fs P c :
  Forall plain P → plain c → dirs fs P →
  entry_of cwd M fs (path_of (P ++ [c])) = Some (P, c).
Proof.
  intros HP Hc Hd. pose proof (plain_ne _ Hc) as (? & ? & ?).
  unfold entry_of, start. rewrite IsAbs_path_of.
  rewrite Split_path_of.
  2: { apply Forall_plain_nosep, Forall_app.
       split; [done|by repeat constructor]. }
  2: apply snoc_ne_nil.
  change ("" :: P ++ [c]) with (("" :: P) ++ [c]).
  rewrite rev_app_distr.
  change (rev [c] ++ ?l) with (c :: l).
  cbn [strip_empty]. rewrite !eqb_false by done.
  rewrite rev_involutive, walk_cons, walk_dirs by done.
  cbn [is_dir node_at negb]. rewrite String.eqb_refl.
  by rewrite (dirs_is_dir _ _ Hd).
Qed.

Lemma ln_snf_entry fs P c T :
  Forall plain P → plain c → dirs fs P →
  fs !! (P ++ [c]) = None → T ≠ "" →
  ln_snf cwd M fs T (path_of (P ++ [c]))
  = Some (<[P ++ [c] := Link T]> fs).
Proof.
  intros HP Hc Hd Hn HT.
  assert (Forall plain (P ++ [c])) as HPc
    by (apply Forall_app; split; [done|by repeat constructor]).
  unfold ln_snf, Lstat, Symlink, create.
  rewrite !eqb_false by done.
  rewrite lookup_path_of, walk_entry, Hn by done.
  cbn [fmap option_fmap option_map].
  by rewrite entry_of_entry, Hn.
Qed.

(** [RemoveAll] followed by [ln -snf] in a directory reached without
    links: the entry is the new link, the rest of the tree is as it
    was outside the old entry. *)
Lemma relink_entry fs P c T :
  Forall plain P → plain c → dirs fs P → T ≠ "" →
  ∃ fs2,
    ln_snf cwd M (RemoveAll cwd M fs (path_of (P ++ [c]))).1 T
      (path_of (P ++ [c])) = Some fs2
    ∧ fs2 !! (P ++ [c]) = Some (Link T)
    ∧ same_outside (P ++ [c]) fs fs2.
Proof.
  intros HP Hc Hd HT.
  destruct (RemoveAll_entry fs P c) as [Hn Hso]; [done..|].
  eexists. split; [|split].
  - apply ln_snf_entry; try done.
    eapply dirs_same_outside; [done..|]. by apply not_prefix_snoc.
  - apply lookup_insert_eq.
  - intros k Hk. rewrite lookup_insert_ne; [by apply Hso|].
    by intros <-.
Qed.

Lemma Readlink_entry fs P c T :
  Forall plain P → plain c → dirs fs P →
  fs !! (P ++ [c]) = Some (Link T) →
  Readlink cwd M fs (path_of (P ++ [c])) = Some T.
Proof.
  intros HP Hc Hd Hl. unfold Readlink, Lstat.
  rewrite lookup_path_of
    by (apply Forall_app; split; [done|by repeat constructor]).
  rewrite walk_entry, Hl by done. simpl.
  unfold node_at. destruct (P ++ [c]) eqn:E; [by destruct P|].
  by rewrite Hl.
Qed.

(** Resolving a link to an absolute clean path continues at that
    path. *)
Lemma resolve_link fs n P c TL :
  Forall plain P → plain c → Forall plain TL → dirs fs P →
  fs !! (P ++ [c]) = Some (Link (path_of TL)) →
  resolve fs cwd true (S n) (path_of (P ++ [c]))
  = walk fs true n [] None TL.
Proof.
  intros HP Hc HTL Hd Hl.
  rewrite resolve_path_of
    by (apply Forall_app; split; [done|by repeat constructor]).
  rewrite walk_dirs_app by done.
  rewrite app_nil_l, walk_plain, (dirs_is_dir _ _ Hd), Hl by done. simpl.
  unfold follow_link, link_start. rewrite IsAbs_path_of, app_nil_r.
  by rewrite <- (resolve_path_of fs cwd true n TL).
Qed.

End syscall_lemmas.

(** ** Running procedures *)

Ltac proc_unfold :=
  unfold Fatalf, Printf, emit, exit1, observe, mutate,
    mbind, mret, Proc_bind, Proc_ret in *.

Section remover.
Context (env : Env).
Let gb := NewGoBrew env.

Lemma existsVersion_after_clean d v :
  IsAbs (HOME env) = true →
  existsVersion env gb
    (RemoveAll (workdir env) (MAXSYMLINKS env) d (getVersionDir gb v)).1 v
  = false.
Proof.
  intros Habs. unfold existsVersion, os_Stat, gb.
  rewrite goDir_eq, getVersionDir_eq by done.
  rewrite gone_after_RemoveAll; [done|by apply versionLoc_plain|done].
Qed.

Lemma RemoveAll_of_exists d v :
  IsAbs (HOME env) = true →
  existsVersion env gb d v = true →
  ∃ l,
    Lstat (workdir env) (MAXSYMLINKS env) d (getVersionDir gb v) = Some l
    ∧ RemoveAll (workdir env) (MAXSYMLINKS env) d (getVersionDir gb v)
      = (remove_tree l d, true).
Proof.
  intros Habs. unfold existsVersion, os_Stat, Stat, Lstat, gb.
  rewrite goDir_eq, getVersionDir_eq by done.
  pose proof (versionLoc_plain env v) as Hp.
  rewrite RemoveAll_path_of, !lookup_path_of
    by (try apply Forall_app; repeat constructor; done).
  destruct (walk _ false _ _ _ _) as [[l r]|] eqn:Ew.
  - intros _. by exists l.
  - by rewrite (walk_nofollow_None _ _ _ _ _ "go").
Qed.

(** C4 (amended).  With an absolute [HOME], [Uninstall] ends the process,
    with one line logged and the tree untouched, when the version is
    empty, is the current one or is not installed; otherwise it removes
    what [getVersionDir] names, with everything below, and the version
    is not installed afterwards. *)
Theorem Uninstall_guards_and_removal w v :
  IsAbs (HOME env) = true →
  (v = "" ∨ v = CurrentVersion env gb (disk w)
   ∨ existsVersion env gb (disk w) v = false →
   ∃ line,
     Uninstall env gb v w
     = (mkWorld (disk w) (trace w ++ [Log line]), None))
  ∧ (v ≠ "" → v ≠ CurrentVersion env gb (disk w) →
     existsVersion env gb (disk w) v = true →
     ∃ l w',
       Lstat (workdir env) (MAXSYMLINKS env) (disk w) (getVersionDir gb v)
       = Some l
       ∧ Uninstall env gb v w = (w', Some ())
       ∧ disk w' = remove_tree l (disk w)
       ∧ existsVersion env gb (disk w') v = false).
Proof.
  intros Habs. split.
  - intros Hcase. unfold Uninstall. proc_unfold.
    destruct (String.eqb_spec v "") as [->|Hv]; [by eexists|]. simpl.
    destruct (String.eqb_spec (CurrentVersion env gb (disk w)) v)
      as [|Hcv]; [by eexists|].
    destruct Hcase as [?|[?|Hex]]; [done..|].
    rewrite Hex. by eexists.
  - intros Hv Hcv Hex.
    destruct (RemoveAll_of_exists _ _ Habs Hex) as (l & Hl & Hrm).
    pose proof (existsVersion_after_clean (disk w) v Habs) as Hgone.
    rewrite Hrm in Hgone.
    exists l. eexists. split; [done|].
    unfold Uninstall, cleanVersionDir, os_RemoveAll. proc_unfold.
    rewrite eqb_false by done. simpl.
    rewrite eqb_false by done. rewrite Hex. simpl.
    rewrite Hrm. simpl. done.
Qed.

End remover.

(** ** Switching *)

Section switcher.
Context (env : Env) (Habs : IsAbs (HOME env) = true).
Let gb := NewGoBrew env.

Lemma changeSymblinkGoBin_spec w v :
  dirs (disk w) (currentLoc env) →
  ∃ d2,
    changeSymblinkGoBin env gb v w
    = (mkWorld d2
         (trace w ++
          [SysRemoveAll (currentBinDir gb);
           Exec "ln" ["-snf"; Join [versionsDir gb; v; "/go/bin"];
                      currentBinDir gb]]),
       Some ())
    ∧ d2 !! (currentLoc env ++ ["bin"])
      = Some (Link (Join [versionsDir gb; v; "/go/bin"]))
    ∧ same_outside (currentLoc env ++ ["bin"]) (disk w) d2.
Proof.
  intros Hd.
  destruct (relink_entry (workdir env) (MAXSYMLINKS env) (disk w)
              (currentLoc env) "bin" (Join [versionsDir gb; v; "/go/bin"]))
    as (d2 & Hln & Hl & Hso);
    [by apply currentLoc_plain|done|done| |].
  { unfold gb. by rewrite goBinDst_eq. }
  exists d2. split; [|done].
  unfold changeSymblinkGoBin, os_RemoveAll, exec_ln. proc_unfold.
  unfold gb in *. rewrite currentBinDir_eq in * by done.
  cbn [disk trace fst snd]. rewrite Hln. cbn [fst snd].
  by rewrite <- app_assoc.
Qed.

Lemma changeSymblinkGo_spec w v :
  dirs (disk w) (currentLoc env) →
  ∃ d3 d4,
    d3 = (RemoveAll (workdir env) (MAXSYMLINKS env) (disk w)
            (currentGoDir gb)).1
    ∧ changeSymblinkGo env gb v w
      = (mkWorld d4
           (trace w ++
            [SysRemoveAll (currentGoDir gb);
             Exec "ln" ["-snf";
                        Join [versionsDir gb; CurrentVersion env gb d3; "go"];
                        currentGoDir gb]]),
         Some ())
    ∧ d4 !! (currentLoc env ++ ["go"])
      = Some (Link (Join [versionsDir gb; CurrentVersion env gb d3; "go"]))
    ∧ same_outside (currentLoc env ++ ["go"]) (disk w) d3
    ∧ same_outside (currentLoc env ++ ["go"]) (disk w) d4.
Proof.
  intros Hd. eexists. 
  destruct (relink_entry (workdir env) (MAXSYMLINKS env) (disk w)
              (currentLoc env) "go"
              (Join [versionsDir gb;
                     CurrentVersion env gb
                       (RemoveAll (workdir env) (MAXSYMLINKS env) (disk w)
                          (currentGoDir gb)).1; "go"]))
    as (d4 & Hln & Hl & Hso);
    [by apply currentLoc_plain|done|done| |].
  { unfold gb. by rewrite goDir_eq. }
  exists d4. split; [done|].
  destruct (RemoveAll_entry (workdir env) (MAXSYMLINKS env) (disk w)
              (currentLoc env) "go") as [_ Hso3];
    [by apply currentLoc_plain|done|done|].
  unfold gb in *. rewrite currentGoDir_eq in * by done.
  split; [|done].
  unfold changeSymblinkGo, os_RemoveAll, exec_ln. proc_unfold.
  rewrite currentGoDir_eq by done.
  cbn [disk trace fst snd]. rewrite Hln. cbn [fst snd].
  by rewrite <- app_assoc.
Qed.

Lemma under_current (c : string) p :
  (currentLoc env ++ [c]) `prefix_of` p → currentLoc env `prefix_of` p.
Proof. intros Hp. etrans; [|done]. by apply prefix_app_r. Qed.

Lemma current_not_prefix_versions X :
  ¬ currentLoc env `prefix_of` (versionsLoc env ++ X).
Proof.
  unfold currentLoc, versionsLoc. rewrite <- app_assoc.
  intros Hp%prefix_app_inv. simpl in Hp.
  by apply prefix_cons_inv_1 in Hp.
Qed.

Lemma versionLoc_outside_current v :
  plain v ∨ v = "" → ¬ currentLoc env `prefix_of` versionLoc env v.
Proof.
  intros [Hv| ->].
  - rewrite versionLoc_of_plain by done. apply current_not_prefix_versions.
  - change (versionLoc env "") with (rev (rev (versionsLoc env))).
    rewrite rev_involutive, <- (app_nil_r (versionsLoc env)).
    apply current_not_prefix_versions.
Qed.

Lemma same_outside_current fs fs' (c : string) l :
  same_outside (currentLoc env ++ [c]) fs fs' →
  ¬ currentLoc env `prefix_of` l →
  ∀ p, p `prefix_of` l → fs' !! p = fs !! p.
Proof.
  intros Hso Hl p Hp. apply Hso. intros Hc%under_current.
  apply Hl. by etrans.
Qed.


Lemma dirs_current_kept fs fs' (c : string) :
  same_outside (currentLoc env ++ [c]) fs fs' →
  dirs fs (currentLoc env) → dirs fs' (currentLoc env).
Proof.
  intros Hso Hd. eapply dirs_same_outside; [done..|].
  by apply not_prefix_snoc.
Qed.

(** [Use] of a version other than the current one, in a tree whose
    [current] directory is reached without links: both links are
    replaced, the second with the version resolved after the first. *)
Lemma Use_switch w v :
  CurrentVersion env gb (disk w) ≠ v →
  dirs (disk w) (currentLoc env) →
  ∃ d2 d3 d4,
    Use env gb v w
    = (mkWorld d4
         (trace w ++
          [Log ("[Info] Changing go version to: " +:+ v);
           SysRemoveAll (currentBinDir gb);
           Exec "ln" ["-snf"; Join [versionsDir gb; v; "/go/bin"];
                      currentBinDir gb];
           SysRemoveAll (currentGoDir gb);
           Exec "ln" ["-snf";
                      Join [versionsDir gb; CurrentVersion env gb d3; "go"];
                      currentGoDir gb];
           Log ("[Success] Changed go version to: " +:+ v)]),
       Some ())
    ∧ d2 !! (currentLoc env ++ ["bin"])
      = Some (Link (Join [versionsDir gb; v; "/go/bin"]))
    ∧ same_outside (currentLoc env ++ ["bin"]) (disk w) d2
    ∧ same_outside (currentLoc env ++ ["go"]) d2 d3
    ∧ same_outside (currentLoc env ++ ["go"]) d2 d4
    ∧ d4 !! (currentLoc env ++ ["go"])
      = Some (Link (Join [versionsDir gb; CurrentVersion env gb d3; "go"])).
Proof.
  intros Hcv Hd.
  destruct (changeSymblinkGoBin_spec
              (mkWorld (disk w)
                 (trace w ++ [Log ("[Info] Changing go version to: " +:+ v)]))
              v Hd)
    as (d2 & Hbin & Hl2 & Hso2).
  pose proof (dirs_current_kept _ _ _ Hso2 Hd) as Hd2.
  destruct (changeSymblinkGo_spec
              (mkWorld d2
                 ((trace w ++
                   [Log ("[Info] Changing go version to: " +:+ v)]) ++
                  [SysRemoveAll (currentBinDir gb);
                   Exec "ln" ["-snf"; Join [versionsDir gb; v; "/go/bin"];
                              currentBinDir gb]]))
              v Hd2)
    as (d3 & d4 & -> & Hgo & Hl4 & Hso3 & Hso4).
  exists d2,
    (RemoveAll (workdir env) (MAXSYMLINKS env) d2 (currentGoDir gb)).1, d4.
  split; [|done].
  cbn [disk trace] in Hbin, Hgo.
  unfold Use. proc_unfold. cbn [disk trace].
  rewrite eqb_false by done. cbn [disk trace].
  rewrite Hbin, Hgo. cbn [disk trace].
  by rewrite <- !app_assoc.
Qed.

Lemma prefix_snoc_inv {A} (p l : list A) x :
  p `prefix_of` l ++ [x] → p `prefix_of` l ∨ p = l ++ [x].
Proof.
  intros [k Hk]. destruct k as [|y k _] using rev_ind.
  - right. by rewrite app_nil_r in Hk.
  - left. rewrite app_assoc in Hk. apply app_inj_tail in Hk as [-> _].
    by exists k.
Qed.

Lemma outside_current_snoc l (c : string) :
  c ≠ "current" →
  ¬ currentLoc env `prefix_of` l → ¬ currentLoc env `prefix_of` l ++ [c].
Proof.
  intros Hc Hl [?|Heq]%prefix_snoc_inv; [done|].
  unfold currentLoc in Heq. by apply app_inj_tail in Heq as [_ <-].
Qed.

Lemma go_not_under_bin p :
  p `prefix_of` currentLoc env ++ ["bin"] →
  ¬ currentLoc env ++ ["go"] `prefix_of` p.
Proof.
  intros [Hp| ->]%prefix_snoc_inv.
  - by apply not_prefix_snoc.
  - intros Hp%prefix_app_inv. by apply prefix_cons_inv_1 in Hp.
Qed.

Lemma EvalSymlinks_bin d TL :
  dirs d (currentLoc env) → Forall plain TL →
  d !! (currentLoc env ++ ["bin"]) = Some (Link (path_of TL)) →
  EvalSymlinks (workdir env) d (currentBinDir gb)
  = match walk d true 254 [] None TL with
    | Some (l, None) => Some (render true l)
    | Some (_, Some st) => Some (render false (rev st))
    | None => None
    end.
Proof.
  intros Hd HTL Hl. unfold EvalSymlinks, gb.
  rewrite currentBinDir_eq by done. change 255 with (S 254).
  by rewrite (resolve_link _ _ _ _ _ TL) by (by try apply currentLoc_plain).
Qed.

Lemma CurrentVersion_broken d TL :
  dirs d (currentLoc env) → Forall plain TL →
  d !! (currentLoc env ++ ["bin"]) = Some (Link (path_of TL)) →
  walk d true 254 [] None TL = None →
  CurrentVersion env gb d = "".
Proof.
  intros Hd HTL Hl Hw. unfold CurrentVersion.
  by rewrite (EvalSymlinks_bin d TL), Hw.
Qed.


Lemma existsVersion_false d v :
  existsVersion env gb d v = false →
  walk d true (MAXSYMLINKS env) [] None (versionLoc env v ++ ["go"]) = None.
Proof.
  unfold existsVersion, os_Stat, Stat, gb. rewrite goDir_eq by done.
  rewrite lookup_path_of.
  2: { apply Forall_app. split; [apply versionLoc_plain|by repeat constructor]. }
  by destruct (walk _ _ _ _ _ _).
Qed.

(** [Use] of a version that is not there: [current/bin] is pointed at
    it all the same, the version resolved through the new link is
    empty, and [current/go] is pointed at [versions/go]. *)
Lemma Use_not_installed w v :
  CurrentVersion env gb (disk w) ≠ v →
  existsVersion env gb (disk w) v = false →
  dirs (disk w) (currentLoc env) →
  no_link (disk w) (versionLoc env v ++ ["go"]) →
  ¬ currentLoc env `prefix_of` versionLoc env v →
  ∃ w',
    Use env gb v w = (w', Some ())
    ∧ trace w'
      = trace w ++
        [Log ("[Info] Changing go version to: " +:+ v);
         SysRemoveAll (currentBinDir gb);
         Exec "ln" ["-snf"; Join [versionsDir gb; v; "/go/bin"];
                    currentBinDir gb];
         SysRemoveAll (currentGoDir gb);
         Exec "ln" ["-snf"; Join [versionsDir gb; ""; "go"];
                    currentGoDir gb];
         Log ("[Success] Changed go version to: " +:+ v)]
    ∧ Readlink (workdir env) (MAXSYMLINKS env) (disk w') (currentBinDir gb)
      = Some (Join [versionsDir gb; v; "/go/bin"])
    ∧ Readlink (workdir env) (MAXSYMLINKS env) (disk w') (currentGoDir gb)
      = Some (Join [versionsDir gb; ""; "go"])
    ∧ CurrentVersion env gb (disk w') = "".
Proof.
  intros Hcv Hex Hd Hnl Hout.
  destruct (Use_switch w v Hcv Hd)
    as (d2 & d3 & d4 & HUse & Hl2 & Hso2 & Hso3 & Hso4 & Hl4).
  pose proof (dirs_current_kept _ _ _ Hso2 Hd) as Hd2.
  pose proof (dirs_current_kept _ _ _ Hso3 Hd2) as Hd3.
  pose proof (dirs_current_kept _ _ _ Hso4 Hd2) as Hd4.
  assert (Forall plain (versionLoc env v ++ ["go"])) as Hpg.
  { apply Forall_app. split; [apply versionLoc_plain|by repeat constructor]. }
  assert (Forall plain (versionLoc env v ++ ["go"; "bin"])) as Hpb.
  { apply Forall_app. split; [apply versionLoc_plain|by repeat constructor]. }
  assert (¬ currentLoc env `prefix_of` versionLoc env v ++ ["go"]) as Hout'.
  { by apply outside_current_snoc. }
  assert (∀ d' : files,
    (∀ p, p `prefix_of` versionLoc env v ++ ["go"] →
          d' !! p = disk w !! p) →
    walk d' true 254 [] None (versionLoc env v ++ ["go"; "bin"]) = None)
    as Hbroken.
  { intros d' Hag.
    change (versionLoc env v ++ ["go"; "bin"])
      with (versionLoc env v ++ ["go"] ++ ["bin"]).
    rewrite app_assoc. apply walk_app_None.
    rewrite (walk_no_link (disk w) d' true true (MAXSYMLINKS env));
      [by apply existsVersion_false|done..]. }
  assert (∀ d' : files,
    dirs d' (currentLoc env) →
    d' !! (currentLoc env ++ ["bin"])
    = Some (Link (Join [versionsDir gb; v; "/go/bin"])) →
    (∀ p, p `prefix_of` versionLoc env v ++ ["go"] →
          d' !! p = disk w !! p) →
    CurrentVersion env gb d' = "") as Hempty.
  { intros d' Hd' Hl' Hag. unfold gb in Hl'. rewrite goBinDst_eq in Hl' by done.
    eapply CurrentVersion_broken; [done..|]. by apply Hbroken. }
  assert (∀ p, p `prefix_of` versionLoc env v ++ ["go"] →
               d2 !! p = disk w !! p) as Hag2.
  { by eapply same_outside_current. }
  assert (d3 !! (currentLoc env ++ ["bin"]) = d2 !! (currentLoc env ++ ["bin"]))
    as Hl3 by (by apply Hso3, go_not_under_bin).
  assert (d4 !! (currentLoc env ++ ["bin"]) = d2 !! (currentLoc env ++ ["bin"]))
    as Hl4b by (by apply Hso4, go_not_under_bin).
  assert (CurrentVersion env gb d3 = "") as Hcv3.
  { apply Hempty; [done|by rewrite Hl3|].
    intros p Hp. rewrite <- Hag2 by done.
    by eapply same_outside_current. }
  rewrite Hcv3 in *.
  eexists. split; [done|]. cbn [disk trace].
  split; [done|]. unfold gb in *. split; [|split].
  - rewrite currentBinDir_eq by done.
    apply Readlink_entry; [by apply currentLoc_plain|done|done|].
    by rewrite Hl4b.
  - rewrite currentGoDir_eq by done.
    by apply Readlink_entry; [apply currentLoc_plain|..].
  - apply Hempty; [done|by rewrite Hl4b|].
    intros p Hp. rewrite <- Hag2 by done.
    by eapply same_outside_current.
Qed.


End switcher.

(** ** Installing *)

Section mkdir_lemmas.
Context (cwd : loc) (M : nat).

Lemma grows_refl fs : grows fs fs.
Proof. split; [done|]. intros l n H1 H2. congruence. Qed.

Lemma grows_trans fs1 fs2 fs3 :
  grows fs1 fs2 → grows fs2 fs3 → grows fs1 fs3.
Proof.
  intros [Hs1 Hn1] [Hs2 Hn2]. split; [by etrans|].
  intros l n H3 H1. destruct (fs2 !! l) as [n'|] eqn:E2.
  - assert (n' = Dir) as -> by eauto.
    rewrite (lookup_weaken _ _ _ _ E2 Hs2) in H3. congruence.
  - eauto.
Qed.

Lemma Mkdir_grows fs path fs' :
  Mkdir cwd M fs path = Some fs' → grows fs fs'.
Proof.
  unfold Mkdir, create.
  destruct (entry_of cwd M fs path) as [[d c]|]; [|done].
  destruct (fs !! (d ++ [c])) eqn:E; [done|]. intros [= <-]. split.
  - by apply insert_subseteq.
  - intros l n. rewrite lookup_insert. case_decide; congruence.
Qed.

Lemma mkdir_all_grows n fs path : grows fs (mkdir_all cwd M n fs path).1.
Proof.
  revert fs path. induction n as [|n IH]; intros fs path; simpl.
  - destruct (Stat cwd M fs path); apply grows_refl.
  - destruct (Stat cwd M fs path); [apply grows_refl|].
    assert (∀ X : files * bool, grows fs X.1 →
      grows fs
        (let '(fs1, ok) := X in
         if ok then
           match Mkdir cwd M fs1 path with
           | Some fs2 => (fs2, true)
           | None =>
               (fs1, match Lstat cwd M fs1 path with
                     | Some l => is_dir fs1 l
                     | None => false
                     end)
           end
         else (fs1, false)).1) as Hstep.
    { intros [fs1 [|]] H1; simpl in *; [|done].
      destruct (Mkdir cwd M fs1 path) eqn:Em; simpl; [|done].
      eapply grows_trans; [done|]. by eapply Mkdir_grows. }
    apply Hstep. destruct (String.eqb _ ""); [apply grows_refl|apply IH].
Qed.

Lemma MkdirAll_grows fs path : grows fs (MkdirAll cwd M fs path).1.
Proof. apply mkdir_all_grows. Qed.

Lemma Stat_mono fs fs' path l :
  fs ⊆ fs' → Stat cwd M fs path = Some l → Stat cwd M fs' path = Some l.
Proof.
  intros Hsub. unfold Stat, lookup_path, resolve.
  destruct (String.eqb path ""); [done|].
  destruct (start cwd path) as [cur r].
  destruct (walk fs _ _ _ _ _) as [x|] eqn:Ew; [|done].
  by rewrite (walk_mono _ _ _ _ _ _ _ _ Hsub Ew).
Qed.

End mkdir_lemmas.

(** ** Checking a tree *)

Section checkers.

Lemma elem_of_prefixes p l : p `prefix_of` l → p ∈ prefixes l.
Proof.
  intros [k ->]. unfold prefixes. apply list_elem_of_fmap.
  exists (length p). split.
  - by rewrite take_app_length.
  - apply elem_of_seq. rewrite length_app. lia.
Qed.

Lemma dirsb_dirs fs l : dirsb fs l = true → dirs fs l.
Proof.
  intros H%Is_true_true%forallb_True p Hp.
  apply Is_true_true. revert H. rewrite Forall_forall.
  intros H. by apply H, elem_of_prefixes.
Qed.

Lemma no_linkb_no_link fs l : no_linkb fs l = true → no_link fs l.
Proof.
  intros H%Is_true_true%forallb_True p t Hp Hl.
  revert H. rewrite Forall_forall. intros H.
  specialize (H p (elem_of_prefixes _ _ Hp)).
  unfold is_link in H. by rewrite Hl in H.
Qed.

End checkers.

Section installer.
Context (env : Env).
Context (gb : GoBrew).

Lemma mkdirs_grows w v :
  ∃ d',
    mkdirs env gb v w
    = (mkWorld d'
         (trace w ++
          [SysMkdirAll (installDir gb); SysMkdirAll (currentDir gb);
           SysMkdirAll (versionsDir gb);
           SysMkdirAll (getVersionDir gb v);
           SysMkdirAll (downloadsDir gb)]),
       Some ())
    ∧ grows (disk w) d'.
Proof.
  eexists. split.
  - unfold mkdirs, os_MkdirAll. proc_unfold. cbn [disk trace].
    by rewrite <- !app_assoc.
  - repeat (eapply grows_trans; [|apply MkdirAll_grows]).
    apply grows_refl.
Qed.

Lemma existsVersion_mono d d' v :
  d ⊆ d' → existsVersion env gb d v = true → existsVersion env gb d' v = true.
Proof.
  intros Hsub. unfold existsVersion, os_Stat.
  destruct (Stat _ _ d _) as [l|] eqn:E; [|done].
  by rewrite (Stat_mono _ _ _ _ _ _ Hsub E).
Qed.



End installer.

Section rollback.
Context (env : Env) (Habs : IsAbs (HOME env) = true).
Let gb := NewGoBrew env.

(** Whenever [Install] ends the process for a non-empty version, the
    version is not installed in the tree it leaves: the failure branches
    of [downloadAndExtract] remove the version directory first. *)
Lemma Install_exit_rolls_back w w' v :
  v ≠ "" →
  Install env gb v w = (w', None) →
  existsVersion env gb (disk w') v = false.
Proof.
  intros Hv. destruct (mkdirs_grows env gb w v) as (d' & Hmk & _).
  unfold Install. proc_unfold. rewrite eqb_false by done.
  cbn [disk trace]. rewrite Hmk. cbn [disk trace].
  destruct (existsVersion env gb d' v); [done|].
  unfold downloadAndExtract, utils_Download, exec_tar, cleanVersionDir,
    cleanDownloadsDir, os_RemoveAll.
  proc_unfold. cbn [disk trace].
  destruct (Download env _ _ d') as [d1 [e1|]]; cbn [fst snd disk trace].
  { intros [= <-]. cbn [disk]. by apply existsVersion_after_clean. }
  destruct (tar_xf env _ _ d1) as [d2 [e2|]]; cbn [fst snd disk trace].
  { intros [= <-]. cbn [disk]. by apply existsVersion_after_clean. }
  done.
Qed.

End rollback.


(** * The claims *)

Import Scenario.

(** ** C1: rollback of a failed install *)

(** C1.  [gobrew install 9.99] on a host whose download arrives but is no
    archive: [tar] fails, the version directory is removed and the process
    exits inside [downloadAndExtract], before [Install] reaches
    [cleanDownloadsDir].  The version is not installed, as claimed, but
    the downloaded file is still under [downloads/]. *)
Theorem Install_failed_extraction_keeps_artifact :
  (Install host_no_release (NewGoBrew host_no_release) "9.99" fresh_home).2
  = None
  ∧ existsVersion host_no_release (NewGoBrew host_no_release)
      (disk (Install host_no_release (NewGoBrew host_no_release) "9.99"
               fresh_home).1)
      "9.99"
    = false
  ∧ disk (Install host_no_release (NewGoBrew host_no_release) "9.99"
            fresh_home).1
    !! ["home"; "u"; ".gobrew"; "downloads"; "go9.99.linux-amd64.tar.gz"]
    = Some File
  ∧ trace (Install host_no_release (NewGoBrew host_no_release) "9.99"
             fresh_home).1
    = [SysMkdirAll "/home/u/.gobrew";
       SysMkdirAll "/home/u/.gobrew/current";
       SysMkdirAll "/home/u/.gobrew/versions";
       SysMkdirAll "/home/u/.gobrew/versions/9.99";
       SysMkdirAll "/home/u/.gobrew/downloads";
       Log "[Info] Downloading version: 9.99";
       Fetch "https://golang.org/dl/go9.99.linux-amd64.tar.gz"
         "/home/u/.gobrew/downloads/go9.99.linux-amd64.tar.gz";
       Log "[Success] Untar to /home/u/.gobrew/versions/9.99";
       Exec "tar"
         ["-xf"; "/home/u/.gobrew/downloads/go9.99.linux-amd64.tar.gz";
          "-C"; "/home/u/.gobrew/versions/9.99"];
       SysRemoveAll "/home/u/.gobrew/versions/9.99";
       Log "[Info]: Untar failed: exit status 2";
       Log "[Error]: Please check if version exists from url: https://golang.org/dl/go9.99.linux-amd64.tar.gz"].
Proof. by vm_compute. Qed.

(** ** C4 and C5: the theorems above, run *)

Lemma Uninstall_guards_and_removal_witness :
  ∃ l w',
    Lstat (workdir host) (MAXSYMLINKS host) (disk installed)
      (getVersionDir (NewGoBrew host) "1.17")
    = Some l
    ∧ Uninstall host (NewGoBrew host) "1.17" installed = (w', Some ())
    ∧ disk w' = remove_tree l (disk installed)
    ∧ existsVersion host (NewGoBrew host) (disk w') "1.17" = false.
Proof.
  refine (proj2 (Uninstall_guards_and_removal host installed "1.17" eq_refl)
            _ _ _).
  - discriminate.
  - vm_compute. discriminate.
  - vm_compute. reflexivity.
Defined.

(** With [HOME] unset the paths of [NewGoBrew] are relative, and the
    directory of version [../..] is [.], which [RemoveAll] refuses to
    remove.  In a working directory that holds a [go] directory
    [Uninstall] passes its three guards, logs the success and returns;
    nothing was removed and the version is installed as before. *)
Lemma Uninstall_without_home_removes_nothing :
  IsAbs (HOME host_no_home) = false
  ∧ "../.." ≠ ""
  ∧ "../.."
    ≠ CurrentVersion host_no_home (NewGoBrew host_no_home) (disk beside_go)
  ∧ existsVersion host_no_home (NewGoBrew host_no_home) (disk beside_go)
      "../.." = true
  ∧ getVersionDir (NewGoBrew host_no_home) "../.." = "."
  ∧ Uninstall host_no_home (NewGoBrew host_no_home) "../.." beside_go
    = (mkWorld (disk beside_go)
         [SysRemoveAll "."; Log "[Success] Version: ../.. uninstalled"],
       Some ())
  ∧ existsVersion host_no_home (NewGoBrew host_no_home)
      (disk (Uninstall host_no_home (NewGoBrew host_no_home) "../.."
               beside_go).1) "../.." = true.
Proof.
  split; [reflexivity|]. split; [discriminate|].
  split; [vm_compute; discriminate|].
  repeat split; vm_compute; reflexivity.
Qed.



(** ** C7: switching to the current version *)

(** C7.  [Use] of the version that is current logs one line and returns;
    the tree is the same and nothing but that line is added to the trace,
    the first time and again the second time. *)
Theorem Use_current_is_noop env gb w v :
  CurrentVersion env gb (disk w) = v →
  Use env gb v w
  = (mkWorld (disk w)
       (trace w ++
        [Log ("[Info] Version: " +:+ v +:+ " is already your current version")]),
     Some ())
  ∧ Use env gb v (Use env gb v w).1
    = (mkWorld (disk w)
         (trace w ++
          [Log ("[Info] Version: " +:+ v +:+ " is already your current version");
           Log ("[Info] Version: " +:+ v +:+ " is already your current version")]),
       Some ()).
Proof.
  intros Hcv.
  assert (∀ t, Use env gb v (mkWorld (disk w) t)
               = (mkWorld (disk w)
                    (t ++ [Log ("[Info] Version: " +:+ v
                                +:+ " is already your current version")]),
                  Some ())) as Hrun.
  { intros t. unfold Use. proc_unfold. cbn [disk trace].
    by rewrite Hcv, String.eqb_refl. }
  destruct w as [d t]. cbn [disk trace] in *. split; [apply Hrun|].
  rewrite Hrun. cbn [fst]. rewrite Hrun. by rewrite <- app_assoc.
Qed.

Lemma Use_current_is_noop_witness :
  CurrentVersion host gb (disk active) = "1.17"
  ∧ Use host gb "1.17" active
    = (mkWorld (disk active)
         (trace active ++
          [Log ("[Info] Version: " +:+ "1.17" +:+ " is already your current version")]),
       Some ()).
Proof.
  assert (CurrentVersion host gb (disk active) = "1.17") as H
    by (vm_compute; reflexivity).
  exact (conj H (proj1 (Use_current_is_noop host gb active "1.17" H))).
Defined.

(** ** C8: no version active *)

(** C8.  [CurrentVersion] is a function of the tree and has no way to
    fail; it is the empty string whenever [EvalSymlinks] cannot resolve
    [current/bin]: in particular when there is no entry [bin] in
    [current], and when the entry is a link that leads nowhere however
    many links may be followed. *)
Theorem CurrentVersion_without_link env d :
  IsAbs (HOME env) = true →
  (EvalSymlinks (workdir env) d (currentBinDir (NewGoBrew env)) = None →
   CurrentVersion env (NewGoBrew env) d = "")
  ∧ (dirs d (currentLoc env) → d !! (currentLoc env ++ ["bin"]) = None →
     CurrentVersion env (NewGoBrew env) d = "")
  ∧ (∀ t, dirs d (currentLoc env) →
          d !! (currentLoc env ++ ["bin"]) = Some (Link t) →
          (∀ n, follow_link d true n (currentLoc env) None t [] = None) →
          CurrentVersion env (NewGoBrew env) d = "").
Proof.
  intros Habs.
  assert (EvalSymlinks (workdir env) d (currentBinDir (NewGoBrew env)) = None →
          CurrentVersion env (NewGoBrew env) d = "") as H1.
  { intros H. unfold CurrentVersion. by rewrite H. }
  assert (∀ X, dirs d (currentLoc env) →
    match d !! (currentLoc env ++ ["bin"]) with
    | Some (Link t) => follow_link d true 255 (currentLoc env) None t [] = X
    | Some _ => False
    | None => X = None
    end →
    resolve d (workdir env) true 255 (currentBinDir (NewGoBrew env)) = X)
    as Hres.
  { intros X Hd HX. rewrite currentBinDir_eq by done.
    rewrite resolve_path_of.
    2: { apply Forall_app. split; [apply currentLoc_plain|by repeat constructor]. }
    rewrite walk_dirs_app by (by try apply currentLoc_plain).
    rewrite app_nil_l, walk_plain, (dirs_is_dir _ _ Hd) by done.
    cbn [negb]. by destruct (d !! _) as [[]|]. }
  split; [done|]. split.
  - intros Hd Hn. apply H1. unfold EvalSymlinks.
    rewrite (Hres None); [done..|]. by rewrite Hn.
  - intros t Hd Hl Hb. apply H1. unfold EvalSymlinks.
    rewrite (Hres None); [done..|]. by rewrite Hl.
Qed.

Lemma CurrentVersion_without_link_witness :
  IsAbs (HOME host) = true
  ∧ CurrentVersion host (NewGoBrew host) (disk installed) = "".
Proof.
  split; [reflexivity|].
  refine (proj1 (proj2 (CurrentVersion_without_link host (disk installed)
                          eq_refl)) _ _).
  - apply dirsb_dirs. vm_compute. reflexivity.
  - vm_compute. reflexivity.
Defined.

(** ** C6: the directory of a version *)

(** C6 (amended).  [getVersionDir] computes a path from two strings and
    touches nothing.  It does not validate the version, but it goes
    through [filepath.Join], which cleans: for every [HOME] and every
    version, the result is the versions directory, a separator and the
    version as it was given exactly when the version is made of
    ordinary elements (not empty, not [.], not [..]) with one separator
    between them. *)
Theorem getVersionDir_verbatim env v :
  getVersionDir (NewGoBrew env) v = versionsDir (NewGoBrew env) +:+ "/" +:+ v
  ↔ Forall plain (Split v).
Proof.
  destruct (versionsDir_shape env) as (b & st & HA & Hvd).
  unfold getVersionDir. rewrite Hvd.
  set (A := "versions" :: st) in *.
  assert (rev A ≠ []) as HrA by (unfold A; simpl; apply snoc_ne_nil).
  rewrite Join_two by (by apply render_shape_ne).
  rewrite Clean_continue by done.
  change ("/" +:+ v) with (String sep v).
  split.
  - intros Heq.
    pose proof (fold_clean_shape b (Split v) A (nosep_Split v) HA) as Hsh.
    apply (f_equal Split) in Heq. rewrite Split_app in Heq.
    rewrite (Split_render b (rev A)) in Heq
      by (done || by eapply Forall_rev, clean_shape_nosep).
    destruct (fold_left (clean_step b) (Split v) A) as [|x acc] eqn:Ef.
    { exfalso. apply (f_equal length) in Heq.
      pose proof (Split_nonnil v) as Hv. destruct (Split v); [done|].
      unfold A in Heq. rewrite !length_app in Heq.
      simpl in Heq. rewrite length_app in Heq.
      destruct b; simpl in Heq; lia. }
    rewrite Split_render in Heq
      by (try (eapply Forall_rev, clean_shape_nosep; done);
          simpl; apply snoc_ne_nil).
    rewrite <- app_assoc in Heq. apply app_inv_head in Heq.
    apply (f_equal (@rev string)) in Heq.
    rewrite rev_involutive, rev_app_distr, rev_involutive in Heq.
    rewrite Heq in Hsh. unfold A in Hsh.
    apply clean_shape_above in Hsh; [|done].
    apply Forall_rev in Hsh. by rewrite rev_involutive in Hsh.
  - intros Hv.
    rewrite fold_clean_plain by done.
    rewrite rev_app_distr, rev_involutive.
    rewrite render_app by (done || apply Split_nonnil).
    by rewrite Joins_Split.
Qed.

Lemma getVersionDir_verbatim_witness :
  getVersionDir (NewGoBrew host) "a/b"
  = versionsDir (NewGoBrew host) +:+ "/" +:+ "a/b"
  ∧ getVersionDir (NewGoBrew host_no_home) "1.18beta2"
    = versionsDir (NewGoBrew host_no_home) +:+ "/" +:+ "1.18beta2"
  ∧ ¬ Forall plain (Split "1.17/")
  ∧ ¬ Forall plain (Split "..").
Proof.
  assert (Forall plain (Split "a/b")) as H1 by (by repeat constructor).
  assert (Forall plain (Split "1.18beta2")) as H2 by (by repeat constructor).
  assert (getVersionDir (NewGoBrew host) "1.17/"
          ≠ versionsDir (NewGoBrew host) +:+ "/" +:+ "1.17/") as H3
    by (vm_compute; discriminate).
  assert (getVersionDir (NewGoBrew host) ".."
          ≠ versionsDir (NewGoBrew host) +:+ "/" +:+ "..") as H4
    by (vm_compute; discriminate).
  exact (conj (proj2 (getVersionDir_verbatim host "a/b") H1)
           (conj (proj2 (getVersionDir_verbatim host_no_home "1.18beta2") H2)
              (conj (λ H, H3 (proj2 (getVersionDir_verbatim host "1.17/") H))
                 (λ H, H4 (proj2 (getVersionDir_verbatim host "..") H))))).
Defined.

(** A dot segment is resolved, not kept: the directory of version [..]
    is the install directory, and [..] occurs nowhere in it. *)
Lemma getVersionDir_cleans :
  getVersionDir gb ".." = "/home/u/.gobrew"
  ∧ Contains (getVersionDir gb "..") ".." = false
  ∧ getVersionDir gb "1.17/" = "/home/u/.gobrew/versions/1.17"
  ∧ Contains (getVersionDir gb "1.17/") "1.17/" = false.
Proof. by vm_compute. Qed.

(** ** C9: switching to a version that is not installed *)

(** C9 (amended).  [Use] does not ask whether the version is installed.
    For a version that is not current and not installed, where [current]
    is a directory reached without links, no link lies on the way to
    [versions/<v>/go] and that place is not under [current]: both links
    are removed and made anew and [Use] returns; [current/bin] points at
    [versions/<v>/go/bin], which is not there, but [current/go] points at
    [versions/go], because the version read back through the new
    [current/bin] is empty. *)
Theorem Use_of_missing_version env w v :
  IsAbs (HOME env) = true →
  CurrentVersion env (NewGoBrew env) (disk w) ≠ v →
  existsVersion env (NewGoBrew env) (disk w) v = false →
  dirs (disk w) (currentLoc env) →
  no_link (disk w) (versionLoc env v ++ ["go"]) →
  ¬ currentLoc env `prefix_of` versionLoc env v →
  ∃ w',
    Use env (NewGoBrew env) v w = (w', Some ())
    ∧ trace w'
      = trace w ++
        [Log ("[Info] Changing go version to: " +:+ v);
         SysRemoveAll (currentBinDir (NewGoBrew env));
         Exec "ln" ["-snf"; Join [versionsDir (NewGoBrew env); v; "/go/bin"];
                    currentBinDir (NewGoBrew env)];
         SysRemoveAll (currentGoDir (NewGoBrew env));
         Exec "ln" ["-snf"; Join [versionsDir (NewGoBrew env); ""; "go"];
                    currentGoDir (NewGoBrew env)];
         Log ("[Success] Changed go version to: " +:+ v)]
    ∧ Readlink (workdir env) (MAXSYMLINKS env) (disk w')
        (currentBinDir (NewGoBrew env))
      = Some (Join [versionsDir (NewGoBrew env); v; "/go/bin"])
    ∧ Readlink (workdir env) (MAXSYMLINKS env) (disk w')
        (currentGoDir (NewGoBrew env))
      = Some (versionsDir (NewGoBrew env) +:+ "/go")
    ∧ CurrentVersion env (NewGoBrew env) (disk w') = "".
Proof.
  intros Habs Hcv Hex Hd Hnl Hout.
  destruct (Use_not_installed env Habs w v Hcv Hex Hd Hnl Hout)
    as (w' & HU & Ht & Hb & Hg & Hc).
  exists w'. split; [exact HU|]. split; [exact Ht|]. split; [exact Hb|].
  split; [|exact Hc].
  rewrite Hg, (goDir_eq env Habs ""), versionsDir_eq by exact Habs.
  change (versionLoc env "") with (rev (rev (versionsLoc env))).
  rewrite rev_involutive. f_equal. apply path_of_snoc.
  unfold versionsLoc. apply snoc_ne_nil.
Qed.

Lemma Use_of_missing_version_witness :
  ∃ w',
    Use host (NewGoBrew host) "1.18" installed = (w', Some ())
    ∧ Readlink (workdir host) (MAXSYMLINKS host) (disk w')
        (currentGoDir (NewGoBrew host))
      = Some (versionsDir (NewGoBrew host) +:+ "/go").
Proof.
  assert (CurrentVersion host (NewGoBrew host) (disk installed) ≠ "1.18")
    as H1 by (vm_compute; discriminate).
  assert (existsVersion host (NewGoBrew host) (disk installed) "1.18" = false)
    as H2 by (vm_compute; reflexivity).
  assert (dirs (disk installed) (currentLoc host))
    as H3 by (apply dirsb_dirs; vm_compute; reflexivity).
  assert (no_link (disk installed) (versionLoc host "1.18" ++ ["go"]))
    as H4 by (apply no_linkb_no_link; vm_compute; reflexivity).
  assert (¬ currentLoc host `prefix_of` versionLoc host "1.18")
    as H5 by (apply versionLoc_outside_current; left; exact I).
  destruct (Use_of_missing_version host installed "1.18" eq_refl H1 H2 H3 H4 H5)
    as (w' & HU & _ & _ & Hg & _).
  exists w'. exact (conj HU Hg).
Defined.

(** With 1.17 installed and nothing current, [gobrew use 1.18] returns
    and leaves [current/go] pointing at [versions/go], not into
    [versions/1.18]. *)
Lemma Use_of_missing_version_go_link :
  CurrentVersion host gb (disk installed) ≠ "1.18"
  ∧ existsVersion host gb (disk installed) "1.18" = false
  ∧ (Use host gb "1.18" installed).2 = Some ()
  ∧ Readlink [] 40 (disk (Use host gb "1.18" installed).1) (currentGoDir gb)
    = Some "/home/u/.gobrew/versions/go"
  ∧ Readlink [] 40 (disk (Use host gb "1.18" installed).1) (currentGoDir gb)
    ≠ Some (Join [versionsDir gb; "1.18"; "go"]).
Proof. vm_compute. repeat split; discriminate. Qed.

(** ** C10: the empty version *)



(** C10.  [Install] and [Uninstall] end the process on the empty
    version; [Use] takes it.  With no version current it logs one line and
    returns, the tree untouched.  With a version current (and [current] a
    directory reached without links, nothing at [versions/go] and no link
    on the way there) it replaces both links and returns: [current/bin]
    points at [versions/go/bin] and [current/go] at [versions/go]. *)
Theorem Use_accepts_empty_version env w :
  IsAbs (HOME env) = true →
  Install env (NewGoBrew env) "" w
  = (mkWorld (disk w) (trace w ++ [Log "[Error] No version provided"]), None)
  ∧ Uninstall env (NewGoBrew env) "" w
    = (mkWorld (disk w) (trace w ++ [Log "[Error] No version provided"]), None)
  ∧ (CurrentVersion env (NewGoBrew env) (disk w) = "" →
     Use env (NewGoBrew env) "" w
     = (mkWorld (disk w)
          (trace w ++ [Log "[Info] Version:  is already your current version"]),
        Some ()))
  ∧ (CurrentVersion env (NewGoBrew env) (disk w) ≠ "" →
     existsVersion env (NewGoBrew env) (disk w) "" = false →
     dirs (disk w) (currentLoc env) →
     no_link (disk w) (versionsLoc env ++ ["go"]) →
     ∃ w',
       Use env (NewGoBrew env) "" w = (w', Some ())
       ∧ Readlink (workdir env) (MAXSYMLINKS env) (disk w')
           (currentBinDir (NewGoBrew env))
         = Some (versionsDir (NewGoBrew env) +:+ "/go/bin")
       ∧ Readlink (workdir env) (MAXSYMLINKS env) (disk w')
           (currentGoDir (NewGoBrew env))
         = Some (versionsDir (NewGoBrew env) +:+ "/go")).
Proof.
  intros Habs. split; [reflexivity|]. split; [reflexivity|]. split.
  - intros Hcv. unfold Use. proc_unfold. cbn [disk trace].
    by rewrite Hcv.
  - intros Hcv Hex Hd Hnl.
    assert (versionLoc env "" = versionsLoc env) as Hv.
    { change (versionLoc env "") with (rev (rev (versionsLoc env))).
      apply rev_involutive. }
    destruct (Use_not_installed env Habs w "" Hcv Hex Hd) as
      (w' & HU & _ & Hb & Hg & _).
    { by rewrite Hv. }
    { apply versionLoc_outside_current. by right. }
    exists w'. split; [exact HU|].
    rewrite Hb, Hg, goBinDst_eq, goDir_eq, Hv, versionsDir_eq by exact Habs.
    change ["go"; "bin"] with (["go"] ++ ["bin"]). rewrite app_assoc.
    rewrite !path_of_snoc, ?sapp_assoc; [done|..];
      unfold versionsLoc; apply snoc_ne_nil.
Qed.

Lemma Use_accepts_empty_version_witness :
  IsAbs (HOME host) = true
  ∧ ∃ w',
      Use host (NewGoBrew host) "" active = (w', Some ())
      ∧ Readlink (workdir host) (MAXSYMLINKS host) (disk w')
          (currentBinDir (NewGoBrew host))
        = Some (versionsDir (NewGoBrew host) +:+ "/go/bin")
      ∧ Readlink (workdir host) (MAXSYMLINKS host) (disk w')
          (currentGoDir (NewGoBrew host))
        = Some (versionsDir (NewGoBrew host) +:+ "/go").
Proof.
  split; [reflexivity|].
  refine (proj2 (proj2 (proj2 (Use_accepts_empty_version host active eq_refl)))
            _ _ _ _).
  - vm_compute. discriminate.
  - vm_compute. reflexivity.
  - apply dirsb_dirs. vm_compute. reflexivity.
  - apply no_linkb_no_link. vm_compute. reflexivity.
Defined.

(** ** C3: both links after a switch *)




(** ** C2: install, then use *)




(** * Further properties of gobrew.go *)

(** ** Cleaning up *)

Lemma RemoveAll_subseteq cwd M fs path : (RemoveAll cwd M fs path).1 ⊆ fs.
Proof.
  unfold RemoveAll. destruct (String.eqb path ""); [done|].
  destruct (endsWithDot path); [done|].
  destruct (Lstat cwd M fs path); [apply remove_tree_subseteq|done].
Qed.

(** X1.  [cleanVersionDir] always returns; it only takes entries away, and
    the version is not installed afterwards. *)
Theorem cleanVersionDir_uninstalls env w v :
  IsAbs (HOME env) = true →
  ∃ d',
    cleanVersionDir env (NewGoBrew env) v w
    = (mkWorld d' (trace w ++ [SysRemoveAll (getVersionDir (NewGoBrew env) v)]),
       Some ())
    ∧ d' ⊆ disk w
    ∧ existsVersion env (NewGoBrew env) d' v = false.
Proof.
  intros Habs. eexists. split; [reflexivity|]. split.
  - apply RemoveAll_subseteq.
  - by apply existsVersion_after_clean.
Qed.

Lemma cleanVersionDir_uninstalls_witness :
  IsAbs (HOME host) = true
  ∧ ∃ d',
      cleanVersionDir host (NewGoBrew host) "1.17" active
      = (mkWorld d'
           (trace active ++ [SysRemoveAll (getVersionDir (NewGoBrew host) "1.17")]),
         Some ())
      ∧ d' ⊆ disk active
      ∧ existsVersion host (NewGoBrew host) d' "1.17" = false.
Proof.
  exact (conj eq_refl (cleanVersionDir_uninstalls host active "1.17" eq_refl)).
Defined.

(** X2.  Whenever [Install] ends the process for a version that is not
    empty, the version is not installed in the tree it leaves. *)
Theorem Install_exit_leaves_no_version env w w' v :
  IsAbs (HOME env) = true → v ≠ "" →
  Install env (NewGoBrew env) v w = (w', None) →
  existsVersion env (NewGoBrew env) (disk w') v = false.
Proof. intros Habs. by apply Install_exit_rolls_back. Qed.

Lemma Install_exit_leaves_no_version_witness :
  existsVersion host_no_release (NewGoBrew host_no_release)
    (disk (Install host_no_release (NewGoBrew host_no_release) "9.99"
             fresh_home).1) "9.99"
  = false.
Proof.
  assert ("9.99" ≠ "") as H1 by discriminate.
  assert (Install host_no_release (NewGoBrew host_no_release) "9.99" fresh_home
          = ((Install host_no_release (NewGoBrew host_no_release) "9.99"
                fresh_home).1, None)) as H2 by (vm_compute; reflexivity).
  exact (Install_exit_leaves_no_version host_no_release fresh_home _ "9.99"
           eq_refl H1 H2).
Defined.

(** X3.  When [Install] returns after having had to download, nothing is
    left in the downloads directory: no entry of it can be reached. *)
Theorem Install_leaves_no_download env w w' v c :
  IsAbs (HOME env) = true → plain c →
  existsVersion env (NewGoBrew env)
    (disk (mkdirs env (NewGoBrew env) v w).1) v = false →
  Install env (NewGoBrew env) v w = (w', Some ()) →
  Stat (workdir env) (MAXSYMLINKS env) (disk w')
    (downloadsDir (NewGoBrew env) +:+ "/" +:+ c)
  = None.
Proof.
  intros Habs Hc Hex.
  destruct (mkdirs_grows env (NewGoBrew env) w v) as (d' & Hmk & _).
  rewrite Hmk in Hex. cbn [fst disk] in Hex.
  pose proof (downloadsDir_eq env Habs) as Hdd.
  set (gb := NewGoBrew env) in *.
  unfold Install. proc_unfold.
  destruct (String.eqb v ""); [done|].
  cbn [disk trace]. rewrite Hmk. cbn [disk trace]. rewrite Hex.
  unfold downloadAndExtract, utils_Download, exec_tar, cleanVersionDir,
    cleanDownloadsDir, os_RemoveAll.
  proc_unfold. cbn [disk trace].
  destruct (Download env _ _ d') as [d1 [e1|]]; cbn [fst snd disk trace];
    [done|].
  destruct (tar_xf env _ _ d1) as [d2 [e2|]]; cbn [fst snd disk trace];
    [done|].
  intros [= <-].
  change (Stat (workdir env) (MAXSYMLINKS env)
            (RemoveAll (workdir env) (MAXSYMLINKS env) d2 (downloadsDir gb)).1
            (downloadsDir gb +:+ String sep c) = None).
  rewrite Hdd.
  rewrite <- path_of_snoc by (unfold downloadsLoc; apply snoc_ne_nil).
  apply gone_after_RemoveAll; [|done].
  apply Forall_app. split; [by apply installLoc_plain|by repeat constructor].
Qed.

Lemma Install_leaves_no_download_witness :
  Stat (workdir host) (MAXSYMLINKS host) (disk installed)
    (downloadsDir (NewGoBrew host) +:+ "/" +:+ "go1.17.linux-amd64.tar.gz")
  = None.
Proof.
  assert (existsVersion host (NewGoBrew host)
            (disk (mkdirs host (NewGoBrew host) "1.17" fresh_home).1) "1.17"
          = false) as H1 by (vm_compute; reflexivity).
  assert (Install host (NewGoBrew host) "1.17" fresh_home = (installed, Some ()))
    as H2 by (vm_compute; reflexivity).
  exact (Install_leaves_no_download host fresh_home installed "1.17"
           "go1.17.linux-amd64.tar.gz" eq_refl I H1 H2).
Defined.

(** ** The skeleton *)

Lemma dirs_insert_dir fs k l : dirs fs l → dirs (<[k := Dir]> fs) l.
Proof.
  intros Hd p Hp. specialize (Hd p Hp). destruct p as [|a p]; [done|].
  apply is_dir_lookup; [done|]. apply is_dir_lookup in Hd; [|done].
  rewrite lookup_insert. by case_decide.
Qed.

Lemma dirs_snoc fs P c :
  dirs fs P → fs !! (P ++ [c]) = Some Dir → dirs fs (P ++ [c]).
Proof.
  intros Hd Hl p [Hp| ->]%prefix_snoc_inv; [by apply Hd|].
  apply is_dir_lookup; [apply snoc_ne_nil|done].
Qed.

Lemma parent_path_of P c :
  Forall plain P → plain c →
  parent_path (path_of (P ++ [c]))
  = match P with [] => "" | _ => path_of P end.
Proof.
  intros HP Hc. pose proof (plain_ne _ Hc) as (? & ? & ?).
  unfold parent_path. rewrite Split_path_of.
  2: { apply Forall_plain_nosep, Forall_app.
       split; [done|by repeat constructor]. }
  2: apply snoc_ne_nil.
  change ("" :: P ++ [c]) with (("" :: P) ++ [c]).
  rewrite rev_app_distr. change (rev [c] ++ ?l) with (c :: l).
  cbn [strip_empty]. rewrite eqb_false by done.
  cbn [tail]. rewrite rev_involutive. by destruct P.
Qed.

(** [MkdirAll] of a place whose parent is reached through directories
    and which is free or a directory already. *)
Lemma MkdirAll_entry cwd M fs P c :
  Forall plain P → plain c → dirs fs P →
  fs !! (P ++ [c]) = None ∨ fs !! (P ++ [c]) = Some Dir →
  MkdirAll cwd M fs (path_of (P ++ [c])) = (<[P ++ [c] := Dir]> fs, true).
Proof.
  intros HP Hc Hd Hfree.
  assert (Forall plain (P ++ [c])) as HPc
    by (apply Forall_app; split; [done|by repeat constructor]).
  unfold MkdirAll.
  change (String.length (path_of (P ++ [c])))
    with (S (String.length (Joins (P ++ [c])))).
  cbn [mkdir_all]. unfold Stat at 1.
  rewrite lookup_path_of by done.
  rewrite walk_dirs_app by done.
  rewrite app_nil_l, walk_plain, (dirs_is_dir _ _ Hd) by done.
  cbn [negb]. destruct Hfree as [Hn|Hdir].
  - rewrite Hn. cbn [fmap option_fmap option_map].
    rewrite parent_path_of by done.
    assert ((if String.eqb match P with [] => "" | _ => path_of P end ""
             then (fs, true)
             else mkdir_all cwd M (String.length (Joins (P ++ [c]))) fs
                    match P with [] => "" | _ => path_of P end)
            = (fs, true)) as ->.
    { destruct P as [|a P]; [done|].
      rewrite eqb_false by apply path_of_ne.
      destruct (String.length _); cbn [mkdir_all]; unfold Stat;
        rewrite lookup_path_of, walk_dirs by done;
        cbn [fmap option_fmap option_map fst]; by rewrite (dirs_is_dir _ _ Hd). }
    unfold Mkdir, create. by rewrite entry_of_entry, Hn.
  - rewrite Hdir, walk_nil. cbn [fmap option_fmap option_map fst].
    rewrite insert_id by done. f_equal.
    apply is_dir_lookup; [apply snoc_ne_nil|done].
Qed.

Lemma vacant_or_dir_insert fs k l :
  vacant_or_dir fs l → vacant_or_dir (<[k := Dir]> fs) l.
Proof.
  intros H. unfold vacant_or_dir. rewrite lookup_insert.
  case_decide; [by right|done].
Qed.

(** X4.  In a home directory reached through directories, where none of
    the five places of the skeleton is taken by a file or a link,
    [mkdirs] makes exactly these five directories (those that are there
    stay) and leaves each of them reached through directories. *)
Theorem mkdirs_makes_skeleton env w v :
  IsAbs (HOME env) = true → plain v →
  dirs (disk w) (homeLoc env) →
  vacant_or_dir (disk w) (installLoc env) →
  vacant_or_dir (disk w) (currentLoc env) →
  vacant_or_dir (disk w) (versionsLoc env) →
  vacant_or_dir (disk w) (versionsLoc env ++ [v]) →
  vacant_or_dir (disk w) (downloadsLoc env) →
  ∃ d',
    mkdirs env (NewGoBrew env) v w
    = (mkWorld d'
         (trace w ++
          [SysMkdirAll (installDir (NewGoBrew env));
           SysMkdirAll (currentDir (NewGoBrew env));
           SysMkdirAll (versionsDir (NewGoBrew env));
           SysMkdirAll (getVersionDir (NewGoBrew env) v);
           SysMkdirAll (downloadsDir (NewGoBrew env))]),
       Some ())
    ∧ d' = <[downloadsLoc env := Dir]>
             (<[versionsLoc env ++ [v] := Dir]>
                (<[versionsLoc env := Dir]>
                   (<[currentLoc env := Dir]>
                      (<[installLoc env := Dir]> (disk w)))))
    ∧ dirs d' (currentLoc env)
    ∧ dirs d' (versionsLoc env ++ [v])
    ∧ dirs d' (downloadsLoc env).
Proof.
  intros Habs Hv Hh Hi Hc Hvs Hvv Hdl.
  set (d1 := <[installLoc env := Dir]> (disk w)).
  set (d2 := <[currentLoc env := Dir]> d1).
  set (d3 := <[versionsLoc env := Dir]> d2).
  set (d4 := <[versionsLoc env ++ [v] := Dir]> d3).
  set (d5 := <[downloadsLoc env := Dir]> d4).
  assert (dirs d1 (installLoc env)) as Hd1.
  { apply dirs_snoc; [by apply dirs_insert_dir|apply lookup_insert_eq]. }
  assert (dirs d2 (installLoc env)) as Hd2 by (by apply dirs_insert_dir).
  assert (dirs d3 (installLoc env)) as Hd3 by (by apply dirs_insert_dir).
  assert (dirs d3 (versionsLoc env)) as Hd3v.
  { apply dirs_snoc; [done|apply lookup_insert_eq]. }
  assert (dirs d4 (installLoc env)) as Hd4 by (by apply dirs_insert_dir).
  pose proof (homeLoc_plain env) as Hph.
  pose proof (installLoc_plain env) as Hpi.
  pose proof (versionsLoc_plain env) as Hpv.
  assert (MkdirAll (workdir env) (MAXSYMLINKS env) (disk w)
            (installDir (NewGoBrew env)) = (d1, true)) as E1.
  { rewrite installDir_eq by done. by apply MkdirAll_entry. }
  assert (MkdirAll (workdir env) (MAXSYMLINKS env) d1
            (currentDir (NewGoBrew env)) = (d2, true)) as E2.
  { rewrite currentDir_eq by done.
    apply MkdirAll_entry; [done..|]. by apply vacant_or_dir_insert. }
  assert (MkdirAll (workdir env) (MAXSYMLINKS env) d2
            (versionsDir (NewGoBrew env)) = (d3, true)) as E3.
  { rewrite versionsDir_eq by done.
    apply MkdirAll_entry; [done..|]. by do 2 apply vacant_or_dir_insert. }
  assert (MkdirAll (workdir env) (MAXSYMLINKS env) d3
            (getVersionDir (NewGoBrew env) v) = (d4, true)) as E4.
  { rewrite getVersionDir_eq, versionLoc_of_plain by done.
    apply MkdirAll_entry; [done..|]. by do 3 apply vacant_or_dir_insert. }
  assert (MkdirAll (workdir env) (MAXSYMLINKS env) d4
            (downloadsDir (NewGoBrew env)) = (d5, true)) as E5.
  { rewrite downloadsDir_eq by done.
    apply MkdirAll_entry; [done..|]. by do 4 apply vacant_or_dir_insert. }
  exists d5. split; [|split; [done|]].
  - set (gb := NewGoBrew env) in *.
    unfold mkdirs, os_MkdirAll. proc_unfold. cbn [disk trace].
    rewrite E1. cbn [fst]. rewrite E2. cbn [fst]. rewrite E3. cbn [fst].
    rewrite E4. cbn [fst]. rewrite E5. cbn [fst].
    by rewrite <- !app_assoc.
  - split; [|split].
    + do 3 apply dirs_insert_dir.
      apply dirs_snoc; [done|apply lookup_insert_eq].
    + apply dirs_insert_dir.
      apply dirs_snoc; [by apply dirs_insert_dir|apply lookup_insert_eq].
    + apply dirs_snoc; [by apply dirs_insert_dir|apply lookup_insert_eq].
Qed.

Lemma mkdirs_makes_skeleton_witness :
  ∃ d',
    mkdirs host (NewGoBrew host) "1.17" fresh_home
    = (mkWorld d'
         (trace fresh_home ++
          [SysMkdirAll (installDir (NewGoBrew host));
           SysMkdirAll (currentDir (NewGoBrew host));
           SysMkdirAll (versionsDir (NewGoBrew host));
           SysMkdirAll (getVersionDir (NewGoBrew host) "1.17");
           SysMkdirAll (downloadsDir (NewGoBrew host))]),
       Some ())
    ∧ d' = <[downloadsLoc host := Dir]>
             (<[versionsLoc host ++ ["1.17"] := Dir]>
                (<[versionsLoc host := Dir]>
                   (<[currentLoc host := Dir]>
                      (<[installLoc host := Dir]> (disk fresh_home)))))
    ∧ dirs d' (currentLoc host)
    ∧ dirs d' (versionsLoc host ++ ["1.17"])
    ∧ dirs d' (downloadsLoc host).
Proof.
  assert (dirs (disk fresh_home) (homeLoc host)) as H1
    by (apply dirsb_dirs; vm_compute; reflexivity).
  assert (vacant_or_dir (disk fresh_home) (installLoc host)) as H2
    by (left; vm_compute; reflexivity).
  assert (vacant_or_dir (disk fresh_home) (currentLoc host)) as H3
    by (left; vm_compute; reflexivity).
  assert (vacant_or_dir (disk fresh_home) (versionsLoc host)) as H4
    by (left; vm_compute; reflexivity).
  assert (vacant_or_dir (disk fresh_home) (versionsLoc host ++ ["1.17"])) as H5
    by (left; vm_compute; reflexivity).
  assert (vacant_or_dir (disk fresh_home) (downloadsLoc host)) as H6
    by (left; vm_compute; reflexivity).
  exact (mkdirs_makes_skeleton host fresh_home "1.17" eq_refl I
           H1 H2 H3 H4 H5 H6).
Defined.



(** X6.  Where [current] is a directory reached through directories,
    [Use] of any name other than the current version returns, whether
    the version is installed or not; [current/bin] is then a link to
    [versions/<name>/go/bin], and nothing of the tree has changed
    outside [current/bin] and [current/go]. *)
Theorem Use_changes_only_links env w v :
  IsAbs (HOME env) = true →
  CurrentVersion env (NewGoBrew env) (disk w) ≠ v →
  dirs (disk w) (currentLoc env) →
  ∃ w',
    Use env (NewGoBrew env) v w = (w', Some ())
    ∧ Readlink (workdir env) (MAXSYMLINKS env) (disk w')
        (currentBinDir (NewGoBrew env))
      = Some (Join [versionsDir (NewGoBrew env); v; "/go/bin"])
    ∧ ∀ k, ¬ (currentLoc env ++ ["bin"]) `prefix_of` k →
           ¬ (currentLoc env ++ ["go"]) `prefix_of` k →
           disk w' !! k = disk w !! k.
Proof.
  intros Habs Hcv Hd.
  destruct (Use_switch env Habs w v Hcv Hd)
    as (d2 & d3 & d4 & HUse & Hl2 & Hso2 & Hso3 & Hso4 & Hl4).
  pose proof (dirs_current_kept env _ _ _ Hso2 Hd) as Hd2.
  pose proof (dirs_current_kept env _ _ _ Hso4 Hd2) as Hd4.
  eexists. split; [exact HUse|]. cbn [disk]. split.
  - rewrite currentBinDir_eq by done.
    apply Readlink_entry; [by apply currentLoc_plain|done|done|].
    rewrite <- Hl2. by apply Hso4, go_not_under_bin.
  - intros k Hb Hg. by rewrite (Hso4 k Hg), (Hso2 k Hb).
Qed.

Lemma Use_changes_only_links_witness :
  ∃ w',
    Use host (NewGoBrew host) "1.18" active = (w', Some ())
    ∧ Readlink (workdir host) (MAXSYMLINKS host) (disk w')
        (currentBinDir (NewGoBrew host))
      = Some (Join [versionsDir (NewGoBrew host); "1.18"; "/go/bin"])
    ∧ ∀ k, ¬ (currentLoc host ++ ["bin"]) `prefix_of` k →
           ¬ (currentLoc host ++ ["go"]) `prefix_of` k →
           disk w' !! k = disk active !! k.
Proof.
  assert (CurrentVersion host (NewGoBrew host) (disk active) ≠ "1.18") as H1
    by (vm_compute; discriminate).
  assert (dirs (disk active) (currentLoc host)) as H2
    by (apply dirsb_dirs; vm_compute; reflexivity).
  exact (Use_changes_only_links host active "1.18" eq_refl H1 H2).
Defined.



Lemma walk_missing fs f n P c rest :
  Forall plain P → plain c → dirs fs P → fs !! (P ++ [c]) = None →
  walk fs f n [] None (P ++ c :: rest) = None.
Proof.
  intros HP Hc Hd Hn.
  rewrite walk_dirs_app by done. simpl.
  rewrite walk_plain by done.
  by rewrite (dirs_is_dir _ _ Hd), Hn.
Qed.

Lemma entry_of_unreachable cwd M fs Q c :
  Forall plain Q → plain c →
  walk fs true M [] None Q = None →
  entry_of cwd M fs (path_of (Q ++ [c])) = None.
Proof.
  intros HQ Hc Hw. pose proof (plain_ne _ Hc) as (? & ? & ?).
  unfold entry_of, start. rewrite IsAbs_path_of.
  rewrite Split_path_of.
  2: { apply Forall_plain_nosep, Forall_app.
       split; [done|by apply Forall_singleton]. }
  2: apply snoc_ne_nil.
  change ("" :: Q ++ [c]) with (("" :: Q) ++ [c]).
  rewrite rev_app_distr.
  change (rev [c] ++ ?l) with (c :: l).
  cbn [strip_empty]. rewrite !eqb_false by done.
  rewrite rev_involutive, walk_cons.
  cbn [is_dir node_at negb]. rewrite String.eqb_refl.
  by rewrite Hw.
Qed.

(** X8.  Where the way to [current] breaks off at a missing entry (as
    in a home directory in which nothing was installed yet), [Use] of
    a version ends the process: [ln] cannot make [current/bin], the
    failure is logged, and the tree is as it was. *)
Theorem Use_without_current env w v P c rest :
  IsAbs (HOME env) = true → v ≠ "" →
  currentLoc env = P ++ c :: rest →
  dirs (disk w) P → disk w !! (P ++ [c]) = None →
  Use env (NewGoBrew env) v w
  = (mkWorld (disk w)
       (trace w ++
        [Log ("[Info] Changing go version to: " +:+ v);
         SysRemoveAll (currentBinDir (NewGoBrew env));
         Exec "ln" ["-snf"; Join [versionsDir (NewGoBrew env); v; "/go/bin"];
                    currentBinDir (NewGoBrew env)];
         Log "[Error]: symbolic link failed: exit status 1"]),
     None).
Proof.
  intros Habs Hv Hcl Hd Hn.
  pose proof (currentLoc_plain env) as Hpc. rewrite Hcl in Hpc.
  apply Forall_app in Hpc as [HP Hpc].
  apply Forall_cons in Hpc as [Hc Hrest].
  assert (Forall plain (currentLoc env ++ ["bin"])) as Hpb.
  { apply Forall_app; split; [apply currentLoc_plain|by apply Forall_singleton]. }
  assert (∀ f n more, walk (disk w) f n [] None (currentLoc env ++ more) = None)
    as Hw.
  { intros f n more. rewrite Hcl, <- app_assoc. simpl.
    by apply walk_missing. }
  assert (CurrentVersion env (NewGoBrew env) (disk w) = "") as Hcv.
  { unfold CurrentVersion, EvalSymlinks.
    rewrite currentBinDir_eq, resolve_path_of by done.
    by rewrite Hw. }
  assert (RemoveAll (workdir env) (MAXSYMLINKS env) (disk w)
            (currentBinDir (NewGoBrew env)) = (disk w, true)) as Hrm.
  { rewrite currentBinDir_eq, RemoveAll_path_of by done. by rewrite Hw. }
  assert (ln_snf (workdir env) (MAXSYMLINKS env) (disk w)
            (Join [versionsDir (NewGoBrew env); v; "/go/bin"])
            (currentBinDir (NewGoBrew env)) = None) as Hln.
  { rewrite goBinDst_eq, currentBinDir_eq by done.
    unfold ln_snf, Lstat, Symlink, create.
    rewrite !eqb_false by apply path_of_ne.
    rewrite lookup_path_of, Hw by done.
    cbn [fmap option_fmap option_map].
    rewrite entry_of_unreachable; [done|apply currentLoc_plain|done|].
    rewrite <- (app_nil_r (currentLoc env)). apply Hw. }
  set (gb := NewGoBrew env) in *.
  unfold Use, changeSymblinkGoBin, os_RemoveAll, exec_ln. proc_unfold.
  rewrite Hcv. rewrite (eqb_false "" v) by done. cbn [disk trace].
  rewrite Hrm. cbn [fst snd disk trace]. rewrite Hln.
  cbn [fst snd disk trace]. by rewrite <- !app_assoc.
Qed.

Lemma Use_without_current_witness :
  Use host (NewGoBrew host) "1.17" fresh_home
  = (mkWorld (disk fresh_home)
       (trace fresh_home ++
        [Log ("[Info] Changing go version to: " +:+ "1.17");
         SysRemoveAll (currentBinDir (NewGoBrew host));
         Exec "ln" ["-snf";
                    Join [versionsDir (NewGoBrew host); "1.17"; "/go/bin"];
                    currentBinDir (NewGoBrew host)];
         Log "[Error]: symbolic link failed: exit status 1"]),
     None).
Proof.
  assert ("1.17" ≠ "") as H0 by discriminate.
  assert (currentLoc host = ["home"; "u"] ++ ".gobrew" :: ["current"]) as H1
    by (vm_compute; reflexivity).
  assert (dirs (disk fresh_home) ["home"; "u"]) as H2
    by (apply dirsb_dirs; vm_compute; reflexivity).
  assert (disk fresh_home !! (["home"; "u"] ++ [".gobrew"]) = None) as H3
    by (vm_compute; reflexivity).
  exact (Use_without_current host fresh_home "1.17" ["home"; "u"] ".gobrew"
           ["current"] eq_refl H0 H1 H2 H3).
Defined.

(** ** Listings *)

Lemma for_each_Printf {A} (g : A → string) l w :
  for_each l (λ x, Printf (g x)) w
  = (mkWorld (disk w) (trace w ++ (Log ∘ g <$> l)), Some ()).
Proof.
  revert w. induction l as [|x l IH]; intros w.
  - simpl. unfold mret, Proc_ret. rewrite app_nil_r. by destruct w.
  - simpl. unfold mbind, Proc_bind, Printf, emit. rewrite IH.
    cbn [disk trace]. by rewrite <- app_assoc.
Qed.

Lemma find_skip lit x rest :
  find_from lit (String.length x) (x +:+ rest) = find_from lit 0 rest.
Proof.
  induction x as [|a x IH]; [by destruct rest|]. by rewrite sapp_cons.
Qed.

Lemma prefix_lacks a p s :
  String.prefix p s = true → lacks a s = true → lacks a p = true.
Proof.
  revert s. induction p as [|b p IH]; intros [|c s]; try done.
  simpl. destruct (ascii_dec b c) as [->|]; [|done].
  intros Hp [Hc Hs]%andb_true_iff. rewrite Hc. simpl. by eapply IH.
Qed.

Lemma find_lacks a lit x rest :
  lacks a x = true →
  find_from (String a lit) 0 (x +:+ rest) = find_from (String a lit) 0 rest.
Proof.
  induction x as [|c x IH]; [done|].
  rewrite sapp_cons. intros [Hc Hx]%andb_true_iff.
  cbn [find_from String.prefix].
  destruct (ascii_dec a c) as [->|]; [|by apply IH].
  by rewrite Ascii.eqb_refl in Hc.
Qed.

Lemma line_rest_line x rest :
  lacks newline x = true → line_rest (x +:+ String newline rest) = x.
Proof.
  induction x as [|c x IH]; [done|].
  intros [Hc Hx]%andb_true_iff. rewrite sapp_cons. cbn [line_rest].
  apply negb_true_iff in Hc. rewrite Hc. by rewrite IH.
Qed.

Lemma replace_lacks a old new s :
  lacks a old = false → lacks a s = true →
  replace_from old new 0 s = s.
Proof.
  intros Hold. induction s as [|c s IH]; [done|].
  intros Hs. pose proof Hs as [_ Hs']%andb_true_iff.
  cbn [replace_from].
  destruct (String.prefix old (String c s)) eqn:Ep.
  - apply (prefix_lacks a) in Ep; [congruence|done].
  - by rewrite IH.
Qed.

Lemma lacks_app a s t :
  lacks a (s +:+ t) = lacks a s && lacks a t.
Proof.
  induction s as [|c s IH]; [done|].
  rewrite sapp_cons. simpl. by rewrite IH, andb_assoc.
Qed.

Lemma find_tag_line v rest :
  lacks newline v = true →
  find_from "tags/go" 0 ("tags/go" +:+ v +:+ String newline rest)
  = ("tags/go" +:+ v) :: find_from "tags/go" 0 rest.
Proof.
  intros Hv.
  assert (line_rest ("tags/go" +:+ v +:+ String newline rest)
          = "tags/go" +:+ v) as Hl.
  { rewrite <- sapp_assoc. apply line_rest_line.
    by rewrite lacks_app, Hv. }
  change ("tags/go" +:+ v +:+ String newline rest)
    with (String "t" ("ags/go" +:+ v +:+ String newline rest)) at 1.
  cbn [find_from].
  change (String "t" ("ags/go" +:+ v +:+ String newline rest))
    with ("tags/go" +:+ v +:+ String newline rest).
  rewrite (sprefix_app "tags/go"), Hl.
  f_equal.
  replace (String.length ("tags/go" +:+ v) - 1)
    with (String.length ("ags/go" +:+ v)) by (simpl; lia).
  rewrite <- (sapp_assoc "ags/go" v), find_skip.
  by apply (find_lacks "t" "ags/go" (String newline "")).
Qed.

Lemma find_tags tags :
  Forall (λ t, lacks "t" t.1 = true ∧ lacks newline t.2 = true) tags →
  find_from "tags/go" 0 (ls_remote_lines tags)
  = (λ t, "tags/go" +:+ t.2) <$> tags.
Proof.
  induction 1 as [|[sha v] tags [Hs Hv] _ IH]; [done|].
  cbn [ls_remote_lines fmap list_fmap]. simpl in Hs, Hv.
  rewrite (find_lacks "t" "ags/go" sha) by done.
  change (String "009" ("refs/tags/go" +:+ v
            +:+ String newline (ls_remote_lines tags)))
    with (String "009" "refs/"
            +:+ ("tags/go" +:+ v +:+ String newline (ls_remote_lines tags))).
  rewrite (find_lacks "t" "ags/go") by done.
  by rewrite find_tag_line, IH.
Qed.

(** X9.  When [git ls-remote] succeeds and prints one line per tag,
    an object name without [t], a tab and [refs/tags/go<version>],
    where no version holds a line feed or a slash, then
    [ListRemoteVersions] logs exactly the versions, one line each, in
    the order of the output, and returns; the tree is not touched. *)
Theorem ListRemoteVersions_prints_versions tags out BytesToString w :
  Forall (λ t, lacks "t" t.1 = true
               ∧ lacks newline t.2 = true ∧ lacks "/" t.2 = true) tags →
  BytesToString out = ls_remote_lines tags →
  ListRemoteVersions (out, None) BytesToString w
  = (mkWorld (disk w)
       (trace w ++
        Exec "git" ["ls-remote"; "--sort=version:refname"; "--tags";
                    "https://github.com/golang/go"; "go*"]
        :: (Log ∘ snd <$> tags)),
     Some ()).
Proof.
  intros Htags Hout.
  unfold ListRemoteVersions, FindAllString_lit_rest. cbn [fst snd].
  rewrite Hout, find_tags.
  2: { eapply Forall_impl; [done|]. by intros ? (? & ? & ?). }
  unfold mbind, Proc_bind, emit, mret, Proc_ret.
  rewrite for_each_Printf. cbn [disk trace].
  rewrite <- app_assoc. do 3 f_equal. simpl. f_equal.
  rewrite <- list_fmap_compose.
  apply Forall_fmap_ext_1.
  eapply Forall_impl; [done|]. intros [sha v] (_ & _ & Hv).
  cbn [snd] in Hv. unfold compose. cbn [snd]. f_equal.
  change (replace_from "tags/go" "" 0 ("tags/go" +:+ v) = v).
  rewrite (replace_match "t" "ags/go" "" v).
  by rewrite (replace_lacks "/").
Qed.

Lemma ListRemoteVersions_prints_versions_witness :
  ListRemoteVersions
    (ls_remote_lines [("0a1b2c", "1.16.7"); ("3d4e5f", "1.17");
                      ("6a7b8c", "1.18beta2")], None) id fresh_home
  = (mkWorld (disk fresh_home)
       (trace fresh_home ++
        Exec "git" ["ls-remote"; "--sort=version:refname"; "--tags";
                    "https://github.com/golang/go"; "go*"]
        :: (Log ∘ snd <$> [("0a1b2c", "1.16.7"); ("3d4e5f", "1.17");
                           ("6a7b8c", "1.18beta2")])),
     Some ()).
Proof.
  assert (Forall (λ t : string * string,
            lacks "t" t.1 = true
            ∧ lacks newline t.2 = true ∧ lacks "/" t.2 = true)
            [("0a1b2c", "1.16.7"); ("3d4e5f", "1.17");
             ("6a7b8c", "1.18beta2")]) as H1
    by (repeat constructor).
  exact (ListRemoteVersions_prints_versions _ _ id fresh_home H1 eq_refl).
Defined.

Lemma child_name_Some l k c : child_name l k = Some c ↔ k = l ++ [c].
Proof.
  unfold child_name. split.
  - case_decide as Ht; [|done].
    destruct (drop (length l) k) as [|c' [|]] eqn:Ed; try done.
    intros [= ->]. by rewrite <- (take_drop (length l) k), Ht, Ed.
  - intros ->. rewrite take_app_length, decide_True by done.
    by rewrite drop_app_length.
Qed.

Lemma elem_of_dir_names fs l c :
  c ∈ dir_names fs l ↔ is_Some (fs !! (l ++ [c])).
Proof.
  unfold dir_names. rewrite list_elem_of_omap. split.
  - intros ([k n] & Hin & Hc). apply child_name_Some in Hc. simpl in Hc.
    subst k. apply elem_of_map_to_list in Hin. by exists n.
  - intros [n Hn]. exists (l ++ [c], n). split.
    + by apply elem_of_map_to_list.
    + by apply child_name_Some.
Qed.

Lemma NoDup_omap_fst {A} (f : loc → option string) (kvs : list (loc * A)) :
  (∀ k k' c, f k = Some c → f k' = Some c → k = k') →
  NoDup kvs.*1 → NoDup (omap (λ kv, f kv.1) kvs).
Proof.
  intros Hinj. induction kvs as [|[k n] kvs IH]; [constructor|].
  rewrite fmap_cons, NoDup_cons. intros [Hk Hnd]. simpl.
  destruct (f k) as [c|] eqn:Ef; [|by apply IH].
  apply NoDup_cons. split; [|by apply IH].
  rewrite list_elem_of_omap. intros ([k' n'] & Hin & Hc). simpl in Hc.
  rewrite (Hinj _ _ _ Ef Hc) in Hk. apply Hk.
  apply list_elem_of_fmap. by exists (k', n').
Qed.

Lemma NoDup_dir_names fs l : NoDup (dir_names fs l).
Proof.
  apply NoDup_omap_fst; [|apply NoDup_fst_map_to_list].
  intros k k' c Hk%child_name_Some Hk'%child_name_Some. congruence.
Qed.

Lemma ReadDir_dirs cwd M fs l :
  Forall plain l → dirs fs l →
  ReadDir cwd M fs (path_of l) = inl (merge_sort String.le (dir_names fs l)).
Proof.
  intros Hl Hd. unfold ReadDir, Stat.
  rewrite lookup_path_of, walk_dirs by done. simpl.
  by rewrite (dirs_is_dir _ _ Hd).
Qed.

(** X10.  With the versions directory reached through directories,
    [ListVersions] logs one line for each entry of that directory and
    no other, every name once and in the order of the strings, with a
    star behind the name that is the current version; when there is
    a current version, an empty line and [current: <version>] follow.
    It returns and leaves the tree as it was. *)
Theorem ListVersions_lists_entries env w :
  IsAbs (HOME env) = true →
  dirs (disk w) (versionsLoc env) →
  ∃ names,
    StronglySorted String.le names ∧ NoDup names
    ∧ (∀ c, c ∈ names ↔ is_Some (disk w !! (versionsLoc env ++ [c])))
    ∧ ListVersions env (NewGoBrew env) w
      = (mkWorld (disk w)
           (trace w ++
            (Log ∘ (λ name,
               if String.eqb name (CurrentVersion env (NewGoBrew env) (disk w))
               then CurrentVersion env (NewGoBrew env) (disk w) +:+ "*"
               else name) <$> names) ++
            (if String.eqb (CurrentVersion env (NewGoBrew env) (disk w)) ""
             then []
             else [Log "";
                   Log ("current: "
                        +:+ CurrentVersion env (NewGoBrew env) (disk w))])),
         Some ()).
Proof.
  intros Habs Hd.
  exists (merge_sort String.le (dir_names (disk w) (versionsLoc env))).
  split; [apply StronglySorted_merge_sort; apply _|].
  split; [rewrite merge_sort_Permutation; apply NoDup_dir_names|].
  split.
  { intros c. rewrite merge_sort_Permutation. apply elem_of_dir_names. }
  pose proof (ReadDir_dirs (workdir env) (MAXSYMLINKS env) (disk w)
                (versionsLoc env) (versionsLoc_plain env) Hd) as Hrd.
  rewrite <- (versionsDir_eq env Habs) in Hrd.
  set (gb := NewGoBrew env) in *.
  unfold ListVersions. unfold observe, mbind, Proc_bind at 1 2.
  rewrite Hrd. cbn [disk trace].
  unfold mbind, Proc_bind. rewrite for_each_Printf. cbn [disk trace].
  destruct (String.eqb (CurrentVersion env gb (disk w)) ""); simpl.
  - unfold mret, Proc_ret. by rewrite app_nil_r.
  - unfold Printf, emit. cbn [disk trace]. by rewrite <- !app_assoc.
Qed.

Lemma ListVersions_lists_entries_witness :
  ∃ names,
    StronglySorted String.le names ∧ NoDup names
    ∧ (∀ c, c ∈ names
            ↔ is_Some (disk two_versions !! (versionsLoc host ++ [c])))
    ∧ ListVersions host (NewGoBrew host) two_versions
      = (mkWorld (disk two_versions)
           (trace two_versions ++
            (Log ∘ (λ name,
               if String.eqb name
                    (CurrentVersion host (NewGoBrew host) (disk two_versions))
               then CurrentVersion host (NewGoBrew host) (disk two_versions)
                    +:+ "*"
               else name) <$> names) ++
            (if String.eqb
                  (CurrentVersion host (NewGoBrew host) (disk two_versions)) ""
             then []
             else [Log "";
                   Log ("current: "
                        +:+ CurrentVersion host (NewGoBrew host)
                              (disk two_versions))])),
         Some ()).
Proof.
  assert (dirs (disk two_versions) (versionsLoc host)) as H1
    by (apply dirsb_dirs; vm_compute; reflexivity).
  exact (ListVersions_lists_entries host two_versions eq_refl H1).
Defined.

(** X11.  Where the way to the versions directory breaks off at a
    missing entry (nothing was installed yet), [ListVersions] ends the
    process after one line that reports the failure; no version is
    listed and the tree is as it was. *)
Theorem ListVersions_without_versions env w P c rest :
  IsAbs (HOME env) = true →
  versionsLoc env = P ++ c :: rest →
  dirs (disk w) P → disk w !! (P ++ [c]) = None →
  ∃ err,
    ListVersions env (NewGoBrew env) w
    = (mkWorld (disk w)
         (trace w ++ [Log ("[Error]: List versions failed: " +:+ err)]),
       None).
Proof.
  intros Habs Hvl Hd Hn.
  pose proof (versionsLoc_plain env) as Hpv.
  pose proof Hpv as Hpv'. rewrite Hvl in Hpv'.
  apply Forall_app in Hpv' as [HP Hpc].
  apply Forall_cons in Hpc as [Hc Hrest].
  assert (ReadDir (workdir env) (MAXSYMLINKS env) (disk w)
            (versionsDir (NewGoBrew env))
          = inr ("open " +:+ versionsDir (NewGoBrew env)
                 +:+ ": no such file or directory")) as Hrd.
  { unfold ReadDir, Stat. rewrite versionsDir_eq at 1 by done.
    rewrite lookup_path_of by done.
    rewrite Hvl at 1. by rewrite walk_missing. }
  eexists. set (gb := NewGoBrew env) in *.
  unfold ListVersions. unfold observe, mbind, Proc_bind at 1.
  rewrite Hrd. by proc_unfold.
Qed.

Lemma ListVersions_without_versions_witness :
  ∃ err,
    ListVersions host (NewGoBrew host) fresh_home
    = (mkWorld (disk fresh_home)
         (trace fresh_home
          ++ [Log ("[Error]: List versions failed: " +:+ err)]),
       None).
Proof.
  assert (versionsLoc host = ["home"; "u"] ++ ".gobrew" :: ["versions"]) as H1
    by (vm_compute; reflexivity).
  assert (dirs (disk fresh_home) ["home"; "u"]) as H2
    by (apply dirsb_dirs; vm_compute; reflexivity).
  assert (disk fresh_home !! (["home"; "u"] ++ [".gobrew"]) = None) as H3
    by (vm_compute; reflexivity).
  exact (ListVersions_without_versions host fresh_home ["home"; "u"] ".gobrew"
           ["versions"] eq_refl H1 H2 H3).
Defined.

(** ** Failed downloads *)

(** X12.  When the version is not installed and the download reports
    an error, [Install] removes the version directory, logs the error
    and the address, and ends the process; [tar] is not run, the
    [downloads] directory is not removed, and the version is not
    installed afterwards. *)
Theorem Install_download_failure env w v d1 d2 e :
  IsAbs (HOME env) = true → v ≠ "" →
  d1 = disk (mkdirs env (NewGoBrew env) v w).1 →
  existsVersion env (NewGoBrew env) d1 v = false →
  Download env
    ("https://golang.org/dl/" +:+ "go" +:+ v +:+ "." +:+ getArch env
     +:+ ".tar.gz")
    (Join [downloadsDir (NewGoBrew env);
           "go" +:+ v +:+ "." +:+ getArch env +:+ ".tar.gz"]) d1
  = (d2, Some e) →
  Install env (NewGoBrew env) v w
  = (mkWorld
       (RemoveAll (workdir env) (MAXSYMLINKS env) d2
          (getVersionDir (NewGoBrew env) v)).1
       (trace w ++
        [SysMkdirAll (installDir (NewGoBrew env));
         SysMkdirAll (currentDir (NewGoBrew env));
         SysMkdirAll (versionsDir (NewGoBrew env));
         SysMkdirAll (getVersionDir (NewGoBrew env) v);
         SysMkdirAll (downloadsDir (NewGoBrew env));
         Log ("[Info] Downloading version: " +:+ v);
         Fetch
           ("https://golang.org/dl/" +:+ "go" +:+ v +:+ "." +:+ getArch env
            +:+ ".tar.gz")
           (Join [downloadsDir (NewGoBrew env);
                  "go" +:+ v +:+ "." +:+ getArch env +:+ ".tar.gz"]);
         SysRemoveAll (getVersionDir (NewGoBrew env) v);
         Log ("[Info]: Downloading version failed: " +:+ e);
         Log ("[Error]: Please check connectivity to url: "
              +:+ "https://golang.org/dl/" +:+ "go" +:+ v +:+ "."
              +:+ getArch env +:+ ".tar.gz")]),
     None)
  ∧ existsVersion env (NewGoBrew env)
      (RemoveAll (workdir env) (MAXSYMLINKS env) d2
         (getVersionDir (NewGoBrew env) v)).1 v
    = false.
Proof.
  intros Habs Hv -> Hex Hdl.
  split; [|by apply existsVersion_after_clean].
  destruct (mkdirs_grows env (NewGoBrew env) w v) as (d' & Hmk & _).
  rewrite Hmk in Hex, Hdl. cbn [fst disk] in Hex, Hdl.
  set (gb := NewGoBrew env) in *.
  unfold Install. proc_unfold. rewrite eqb_false by done.
  cbn [disk trace]. rewrite Hmk. cbn [disk trace]. rewrite Hex.
  unfold downloadAndExtract, utils_Download, cleanVersionDir, os_RemoveAll.
  proc_unfold. cbn [disk trace].
  change (registryPath +:+ ?x) with ("https://golang.org/dl/" +:+ x).
  rewrite Hdl. cbn [fst snd disk trace].
  by rewrite <- !app_assoc.
Qed.

Lemma Install_download_failure_witness :
  Install host_offline (NewGoBrew host_offline) "1.17" fresh_home
  = (mkWorld
       (RemoveAll (workdir host_offline) (MAXSYMLINKS host_offline)
          (disk (mkdirs host_offline (NewGoBrew host_offline) "1.17"
                   fresh_home).1)
          (getVersionDir (NewGoBrew host_offline) "1.17")).1
       (trace fresh_home ++
        [SysMkdirAll (installDir (NewGoBrew host_offline));
         SysMkdirAll (currentDir (NewGoBrew host_offline));
         SysMkdirAll (versionsDir (NewGoBrew host_offline));
         SysMkdirAll (getVersionDir (NewGoBrew host_offline) "1.17");
         SysMkdirAll (downloadsDir (NewGoBrew host_offline));
         Log ("[Info] Downloading version: " +:+ "1.17");
         Fetch
           ("https://golang.org/dl/" +:+ "go" +:+ "1.17" +:+ "."
            +:+ getArch host_offline +:+ ".tar.gz")
           (Join [downloadsDir (NewGoBrew host_offline);
                  "go" +:+ "1.17" +:+ "." +:+ getArch host_offline
                  +:+ ".tar.gz"]);
         SysRemoveAll (getVersionDir (NewGoBrew host_offline) "1.17");
         Log ("[Info]: Downloading version failed: "
              +:+ "Get https://golang.org/dl/go1.17.linux-amd64.tar.gz: dial tcp: no such host");
         Log ("[Error]: Please check connectivity to url: "
              +:+ "https://golang.org/dl/" +:+ "go" +:+ "1.17" +:+ "."
              +:+ getArch host_offline +:+ ".tar.gz")]),
     None)
  ∧ existsVersion host_offline (NewGoBrew host_offline)
      (RemoveAll (workdir host_offline) (MAXSYMLINKS host_offline)
         (disk (mkdirs host_offline (NewGoBrew host_offline) "1.17"
                  fresh_home).1)
         (getVersionDir (NewGoBrew host_offline) "1.17")).1 "1.17"
    = false.
Proof.
  assert ("1.17" ≠ "") as H0 by discriminate.
  assert (existsVersion host_offline (NewGoBrew host_offline)
            (disk (mkdirs host_offline (NewGoBrew host_offline) "1.17"
                     fresh_home).1) "1.17" = false) as H1
    by (vm_compute; reflexivity).
  exact (Install_download_failure host_offline fresh_home "1.17" _ _
           "Get https://golang.org/dl/go1.17.linux-amd64.tar.gz: dial tcp: no such host"
           eq_refl H0 eq_refl H1 eq_refl).
Defined.

(** ** The current version and the link *)

Lemma Readlink_entry_inv cwd M fs P c T :
  Forall plain P → plain c → dirs fs P →
  Readlink cwd M fs (path_of (P ++ [c])) = Some T →
  fs !! (P ++ [c]) = Some (Link T).
Proof.
  intros HP Hc Hd. unfold Readlink, Lstat.
  rewrite lookup_path_of
    by (apply Forall_app; split; [done|by apply Forall_singleton]).
  rewrite walk_entry by done.
  destruct (fs !! (P ++ [c])) as [n|] eqn:El; [|done].
  simpl. unfold node_at.
  destruct (P ++ [c]) eqn:E; [by destruct P|].
  rewrite El. destruct n; try done. by intros [= ->].
Qed.



(** X14.  When [current/bin] is a link to the [go/bin] directory of a
    version that is not installed (removed by hand, say), with no
    symbolic link on the way to where its [go] directory would be,
    [CurrentVersion] is empty. *)
Theorem CurrentVersion_of_missing_version env d v :
  IsAbs (HOME env) = true → plain v →
  dirs d (currentLoc env) →
  Readlink (workdir env) (MAXSYMLINKS env) d (currentBinDir (NewGoBrew env))
  = Some (Join [versionsDir (NewGoBrew env); v; "/go/bin"]) →
  existsVersion env (NewGoBrew env) d v = false →
  no_link d (versionsLoc env ++ [v; "go"]) →
  CurrentVersion env (NewGoBrew env) d = "".
Proof.
  intros Habs Hv Hd Hrl Hex Hnl.
  rewrite currentBinDir_eq, goBinDst_eq, versionLoc_of_plain in Hrl by done.
  apply Readlink_entry_inv in Hrl; [|by apply currentLoc_plain|done..].
  assert (Forall plain (versionsLoc env ++ [v; "go"])) as Hpg.
  { apply Forall_app; split; [apply versionsLoc_plain|].
    by repeat apply Forall_cons_2. }
  eapply (CurrentVersion_broken env Habs d); [done| |exact Hrl|].
  { apply Forall_app; split; [|by repeat apply Forall_cons_2].
    apply Forall_app; split; [apply versionsLoc_plain|].
    by apply Forall_singleton. }
  apply existsVersion_false in Hex; [|done].
  rewrite versionLoc_of_plain in Hex by done.
  rewrite <- app_assoc in Hex.
  change ([v] ++ ["go"]) with [v; "go"] in Hex.
  replace ((versionsLoc env ++ [v]) ++ ["go"; "bin"])
    with ((versionsLoc env ++ [v; "go"]) ++ ["bin"])
    by (by rewrite <- !app_assoc).
  apply walk_app_None.
  by rewrite (walk_no_link d d true true (MAXSYMLINKS env)).
Qed.

Lemma CurrentVersion_of_missing_version_witness :
  CurrentVersion host (NewGoBrew host)
    (disk (Use host (NewGoBrew host) "1.18" active).1) = "".
Proof.
  assert (dirs (disk (Use host (NewGoBrew host) "1.18" active).1)
            (currentLoc host)) as H1
    by (apply dirsb_dirs; vm_compute; reflexivity).
  assert (Readlink (workdir host) (MAXSYMLINKS host)
            (disk (Use host (NewGoBrew host) "1.18" active).1)
            (currentBinDir (NewGoBrew host))
          = Some (Join [versionsDir (NewGoBrew host); "1.18"; "/go/bin"]))
    as H2 by (vm_compute; reflexivity).
  assert (existsVersion host (NewGoBrew host)
            (disk (Use host (NewGoBrew host) "1.18" active).1) "1.18"
          = false) as H3 by (vm_compute; reflexivity).
  assert (no_link (disk (Use host (NewGoBrew host) "1.18" active).1)
            (versionsLoc host ++ ["1.18"; "go"])) as H4
    by (apply no_linkb_no_link; vm_compute; reflexivity).
  exact (CurrentVersion_of_missing_version host _ "1.18" eq_refl I
           H1 H2 H3 H4).
Defined.

(** X15.  [mkdirs] returns for every version name, and a version that
    was installed before is installed after it. *)
Theorem mkdirs_keeps_versions env w v u :
  existsVersion env (NewGoBrew env) (disk w) u = true →
  (mkdirs env (NewGoBrew env) v w).2 = Some ()
  ∧ existsVersion env (NewGoBrew env)
      (disk (mkdirs env (NewGoBrew env) v w).1) u = true.
Proof.
  intros Hex.
  destruct (mkdirs_grows env (NewGoBrew env) w v) as (d' & -> & Hsub & _).
  split; [done|]. by apply (existsVersion_mono env _ (disk w)).
Qed.

Lemma mkdirs_keeps_versions_witness :
  (mkdirs host (NewGoBrew host) "1.18" installed).2 = Some ()
  ∧ existsVersion host (NewGoBrew host)
      (disk (mkdirs host (NewGoBrew host) "1.18" installed).1) "1.17" = true.
Proof.
  assert (existsVersion host (NewGoBrew host) (disk installed) "1.17" = true)
    as H1 by (vm_compute; reflexivity).
  exact (mkdirs_keeps_versions host installed "1.18" "1.17" H1).
Defined.

(** ** The layout *)

(** X16.  For an absolute home directory the directories of
    [NewGoBrew] nest by plain concatenation, whatever dots and doubled
    separators the home directory is written with: [versions],
    [current] and [downloads] are entries of the install directory,
    [bin] and [go] entries of [current], and the directory of a
    version with a plain name is an entry of [versions]. *)
Theorem NewGoBrew_layout env v :
  IsAbs (HOME env) = true → plain v →
  IsAbs (installDir (NewGoBrew env)) = true
  ∧ versionsDir (NewGoBrew env) = installDir (NewGoBrew env) +:+ "/versions"
  ∧ currentDir (NewGoBrew env) = installDir (NewGoBrew env) +:+ "/current"
  ∧ downloadsDir (NewGoBrew env)
    = installDir (NewGoBrew env) +:+ "/downloads"
  ∧ currentBinDir (NewGoBrew env) = currentDir (NewGoBrew env) +:+ "/bin"
  ∧ currentGoDir (NewGoBrew env) = currentDir (NewGoBrew env) +:+ "/go"
  ∧ getVersionDir (NewGoBrew env) v
    = versionsDir (NewGoBrew env) +:+ "/" +:+ v.
Proof.
  intros Habs Hv.
  rewrite getVersionDir_eq, versionLoc_of_plain by done.
  rewrite currentBinDir_eq, currentGoDir_eq, downloadsDir_eq, currentDir_eq,
    versionsDir_eq, installDir_eq by done.
  unfold downloadsLoc, currentLoc, versionsLoc.
  rewrite !(path_of_snoc (_ ++ [_])) by apply snoc_ne_nil.
  rewrite !(path_of_snoc (installLoc env)) by apply snoc_ne_nil.
  split; [apply IsAbs_path_of|done].
Qed.

Lemma NewGoBrew_layout_witness :
  IsAbs (installDir (NewGoBrew host)) = true
  ∧ versionsDir (NewGoBrew host) = installDir (NewGoBrew host) +:+ "/versions"
  ∧ currentDir (NewGoBrew host) = installDir (NewGoBrew host) +:+ "/current"
  ∧ downloadsDir (NewGoBrew host)
    = installDir (NewGoBrew host) +:+ "/downloads"
  ∧ currentBinDir (NewGoBrew host) = currentDir (NewGoBrew host) +:+ "/bin"
  ∧ currentGoDir (NewGoBrew host) = currentDir (NewGoBrew host) +:+ "/go"
  ∧ getVersionDir (NewGoBrew host) "1.17"
    = versionsDir (NewGoBrew host) +:+ "/" +:+ "1.17".
Proof.
  exact (NewGoBrew_layout host "1.17" eq_refl I).
Defined.
